(** * AutoSub Sync: encoding helpers, alignment client and workflow controller

    A shallow embedding of [services/fileUtils.ts], [services/geminiService.ts],
    [types.ts] and the handlers of [App.tsx], with the properties the
    specification states about them. *)

From Stdlib Require Import ZArith NArith List String Ascii Bool Lia DecimalString.
Import ListNotations.

Local Open Scope N_scope.
Local Open Scope list_scope.

(** ** JavaScript strings

    A JavaScript string is a sequence of UTF-16 code units.  Literals of the
    source are ASCII and are written with [lit]. *)
Module Js.

Definition code_unit := N.
Definition jsstring := list code_unit.

Definition lit (s : string) : jsstring :=
  map N_of_ascii (list_ascii_of_string s).

(** The characters of the regular expression class [\s], which are also the
    characters [String.prototype.trim] removes: WhiteSpace and LineTerminator
    of ECMAScript. *)
Definition is_space (c : code_unit) : bool :=
  (c =? 9) || (c =? 10) || (c =? 11) || (c =? 12) || (c =? 13) || (c =? 32)
  || (c =? 160) || (c =? 5760) || ((8192 <=? c) && (c <=? 8202))
  || (c =? 8232) || (c =? 8233) || (c =? 8239) || (c =? 8287)
  || (c =? 12288) || (c =? 65279).

Fixpoint trimStart (s : jsstring) : jsstring :=
  match s with
  | c :: rest => if is_space c then trimStart rest else s
  | [] => []
  end.

Definition trimEnd (s : jsstring) : jsstring := rev (trimStart (rev s)).

Definition trim (s : jsstring) : jsstring := trimEnd (trimStart s).

Fixpoint startsWith (p s : jsstring) : bool :=
  match p, s with
  | [], _ => true
  | a :: p', b :: s' => (a =? b) && startsWith p' s'
  | _ :: _, [] => false
  end.

Definition endsWith (p s : jsstring) : bool := startsWith (rev p) (rev s).

Fixpoint includes (p s : jsstring) : bool :=
  startsWith p s ||
  match s with
  | [] => false
  | _ :: s' => includes p s'
  end.

(** Truthiness of a string-valued expression that may be null or undefined. *)
Definition truthy (o : option jsstring) : bool :=
  match o with
  | Some (_ :: _) => true
  | _ => false
  end.

(** [a || b] on such values. *)
Definition or_else (o : option jsstring) (d : jsstring) : jsstring :=
  match o with
  | Some (c :: s) => c :: s
  | _ => d
  end.

(** The decimal digits of a non-negative integer, as the conversion of a
    number to a string prints them. *)
Definition digits (n : Z) : jsstring :=
  lit (NilEmpty.string_of_uint (N.to_uint (Z.to_N n))).

End Js.

Import Js.
Arguments lit s%_string.

(** ** services/fileUtils.ts *)
Module FileUtils.

(** *** fileToBase64

    The reader either loads the file, with a data URL as [result], or
    fails.  [fileToBase64] resolves with [result.split(',')[1]], which is
    undefined when the result has no comma. *)

Fixpoint split (separator : code_unit) (s : jsstring) : list jsstring :=
  match s with
  | [] => [[]]
  | c :: rest =>
      if c =? separator then [] :: split separator rest
      else match split separator rest with
           | piece :: pieces => (c :: piece) :: pieces
           | [] => [[c]]
           end
  end.

Definition fileToBase64 (result : jsstring) : option jsstring :=
  nth_error (split 44 result) 1.

(** *** formatFileSize

    Byte counts are integers.  [Math.log] is only approximated by an
    implementation; the index [Math.floor(Math.log(bytes) / Math.log(k))] is
    modelled by its exact value, the integer logarithm of [bytes] in base
    [k = 1024 = 2^10].  The division by [Math.pow(k, i)], a power of two, is
    exact on integers below [2^53]. *)

Definition k : Z := 1024.

Definition sizes : list jsstring :=
  [lit "Bytes"; lit "KB"; lit "MB"; lit "GB"].

(** The integer logarithm in base [2^10] is the tenth, rounded down, of the
    one in base 2. *)
Definition unit_index (bytes : Z) : Z := (Z.log2 bytes / 10)%Z.

(** [x.toFixed(2)] for [x = bytes / k^i]: the integer [n] with [n / 100]
    nearest to [x], the larger one when two are as near; kept in
    hundredths. *)
Definition toFixed2 (bytes i : Z) : Z :=
  ((200 * bytes + k ^ i) / (2 * k ^ i))%Z.

(** [parseFloat] of the two-decimal text, converted back to a string by
    [+ ' ']: trailing zeros of the fraction are not printed. *)
Definition number_text (hundredths : Z) : jsstring :=
  let whole := (hundredths / 100)%Z in
  let frac := (hundredths mod 100)%Z in
  digits whole ++
  (if (frac =? 0)%Z then []
   else lit "." ++ digits (frac / 10) ++
        (if (frac mod 10 =? 0)%Z then [] else digits (frac mod 10))).

(** [sizes[i]] in a string concatenation: an index outside the array reads
    [undefined]. *)
Definition sizes_at (i : Z) : jsstring :=
  if (i <? 0)%Z then lit "undefined"
  else nth (Z.to_nat i) sizes (lit "undefined").

Definition formatFileSize (bytes : Z) : jsstring :=
  if (bytes =? 0)%Z then lit "0 Bytes"
  else if (bytes <? 0)%Z then lit "NaN undefined"
  else
    let i := unit_index bytes in
    number_text (toFixed2 bytes i) ++ lit " " ++ sizes_at i.

(** *** downloadSrt *)

(** The class [[^/.]]. *)
Definition ext_char (c : code_unit) : bool := negb (c =? 47) && negb (c =? 46).

(** Whether the whole of [s] matches [\.[^/.]+]. *)
Definition matches_ext (s : jsstring) : bool :=
  match s with
  | d :: c :: rest => (d =? 46) && forallb ext_char (c :: rest)
  | _ => false
  end.

(** [filename.replace(/\.[^/.]+$/, "")]: the leftmost position at which the
    pattern matches is looked for; the pattern is anchored at the end of the
    input, so a match covers the rest of the string. *)
Fixpoint strip_ext (s : jsstring) : jsstring :=
  if matches_ext s then []
  else match s with
       | [] => []
       | c :: rest => c :: strip_ext rest
       end.

(** What [downloadSrt] hands to the browser: the blob, its type and the
    [download] attribute of the anchor it clicks. *)
Record Download := {
  blob_content : jsstring;
  blob_type : jsstring;
  download : jsstring
}.

Definition downloadSrt (content filename : jsstring) : Download :=
  {| blob_content := content;
     blob_type := lit "text/plain";
     download := strip_ext filename ++ lit ".srt" |}.

End FileUtils.

(** ** services/geminiService.ts *)
Module GeminiService.

(** *** Cleaning of the response text *)

(** Case folding of the [i] flag, for the ASCII letters: a pattern character
    that is ASCII is matched by no character outside ASCII. *)
Definition upper (c : code_unit) : code_unit :=
  if (97 <=? c) && (c <=? 122) then c - 32 else c.

(** The rest of [s] after the literal [p], matched at the start of [s]
    without regard to letter case. *)
Fixpoint match_prefix_ci (p s : jsstring) : option jsstring :=
  match p, s with
  | [], _ => Some s
  | a :: p', b :: s' =>
      if upper a =? upper b then match_prefix_ci p' s' else None
  | _ :: _, [] => None
  end.

(** [text.replace(/^p\s*/i, '')]. *)
Definition strip_leading (p text : jsstring) : jsstring :=
  match match_prefix_ci p text with
  | Some rest => trimStart rest
  | None => text
  end.

(** [text.replace(/```$/, '')]: without the [m] flag [$] is the end of the
    input only. *)
Definition strip_trailing_fence (text : jsstring) : jsstring :=
  if endsWith (lit "```") text then firstn (List.length text - 3) text else text.

Definition cleanedText (text : jsstring) : jsstring :=
  trim (strip_trailing_fence
          (strip_leading (lit "```")
             (strip_leading (lit "```srt") text))).

(** *** generateSrtFromVideo *)

Definition nl : jsstring := [10].
Definition quote : jsstring := [34].

Definition prompt (transcript : jsstring) : jsstring :=
  nl ++
  lit "    You are an expert video subtitle synchronizer." ++ nl ++
  lit "    " ++ nl ++
  lit "    Task:" ++ nl ++
  lit "    1. Analyze the audio in the provided video file." ++ nl ++
  lit "    2. Synchronize the provided TRANSCRIPT text with the audio." ++ nl ++
  lit "    3. Generate a standard SRT (SubRip Subtitle) file." ++ nl ++
  lit "    " ++ nl ++
  lit "    Rules:" ++ nl ++
  lit "    - Output ONLY the SRT content. Do not output markdown code blocks (like ```), do not output explanations." ++ nl ++
  lit "    - Ensure the timestamps are accurate to the spoken words." ++ nl ++
  lit "    - If the transcript is in a different language than the audio, try to map them, but primarily listen to the audio for timing. " ++ nl ++
  lit "    - Break lines naturally for readability." ++ nl ++
  lit "    - If the video is silent or speech cannot be detected, return an empty SRT block or a specific error message " ++
  quote ++ lit "ERROR: No speech detected" ++ quote ++ lit "." ++ nl ++
  nl ++
  lit "    TRANSCRIPT:" ++ nl ++
  lit "    " ++ transcript ++ nl ++
  lit "  ".

(** The request given to [ai.models.generateContent] (the sampling
    temperature, a constant, is left out). *)
Record Request := {
  model : jsstring;
  inline_mimeType : jsstring;
  inline_data : jsstring;
  text : jsstring
}.

(** What the service does with a request: it answers, with a text or
    without one, or the call fails with an error whose message may be
    missing. *)
Inductive Reply :=
| Responded (text : option jsstring)
| Rejected (message : option jsstring).

(** How a call of [generateSrtFromVideo] ends. *)
Inductive Outcome :=
| Resolved (srt : jsstring)
| Thrown (message : jsstring).

(** [generateSrtFromVideo], with [process.env.API_KEY] and the service as
    explicit arguments; the result lists the requests sent, in order. *)
Definition generateSrtFromVideo
    (API_KEY : option jsstring) (generateContent : Request -> Reply)
    (videoBase64 mimeType transcript : jsstring) : list Request * Outcome :=
  if negb (truthy API_KEY) then
    ([], Thrown (lit "API Key is missing. Please ensure process.env.API_KEY is available."))
  else
    let request :=
      {| model := lit "gemini-2.5-flash";
         inline_mimeType := mimeType;
         inline_data := videoBase64;
         text := prompt transcript |} in
    ([request],
     match generateContent request with
     | Responded text =>
         match text with
         | Some (c :: rest) => Resolved (cleanedText (c :: rest))
         | _ =>
             Thrown (or_else (Some (lit "Gemini returned an empty response."))
                             (lit "Failed to generate subtitles."))
         end
     | Rejected message =>
         Thrown (or_else message (lit "Failed to generate subtitles."))
     end).

End GeminiService.

Import FileUtils GeminiService.

(** ** types.ts and App.tsx *)
Module App.

Inductive AppStep := UPLOAD | TRANSCRIPT | PROCESSING | RESULT | ERROR.

(** What the handlers read of a browser [File]. *)
Record File := {
  name : jsstring;
  size : Z;
  type : jsstring
}.

Record ProcessingState := {
  step : AppStep;
  videoFile : option File;
  videoBase64 : option jsstring;
  transcript : jsstring;
  generatedSrt : jsstring;
  error : option jsstring
}.

Definition MAX_FILE_SIZE_MB : Z := 200.
Definition MAX_FILE_SIZE_BYTES : Z := MAX_FILE_SIZE_MB * 1024 * 1024.

(** The argument of [useState], which is also what [handleReset] sets. *)
Definition initialState : ProcessingState :=
  {| step := UPLOAD;
     videoFile := None;
     videoBase64 := None;
     transcript := [];
     generatedSrt := [];
     error := None |}.

(** *** The updaters given to [setState]

    Each is the function [prev => ({ ...prev, ... })] of one call. *)

Definition set_error (e : option jsstring) (prev : ProcessingState) :=
  {| step := step prev;
     videoFile := videoFile prev;
     videoBase64 := videoBase64 prev;
     transcript := transcript prev;
     generatedSrt := generatedSrt prev;
     error := e |}.

Definition set_videoFile (file : File) (prev : ProcessingState) :=
  {| step := step prev;
     videoFile := Some file;
     videoBase64 := videoBase64 prev;
     transcript := transcript prev;
     generatedSrt := generatedSrt prev;
     error := None |}.

Definition set_videoBase64 (base64 : option jsstring)
    (prev : ProcessingState) :=
  {| step := TRANSCRIPT;
     videoFile := videoFile prev;
     videoBase64 := base64;
     transcript := transcript prev;
     generatedSrt := generatedSrt prev;
     error := error prev |}.

Definition set_transcript (value : jsstring) (prev : ProcessingState) :=
  {| step := step prev;
     videoFile := videoFile prev;
     videoBase64 := videoBase64 prev;
     transcript := value;
     generatedSrt := generatedSrt prev;
     error := error prev |}.

Definition set_processing (prev : ProcessingState) :=
  {| step := PROCESSING;
     videoFile := videoFile prev;
     videoBase64 := videoBase64 prev;
     transcript := transcript prev;
     generatedSrt := generatedSrt prev;
     error := None |}.

Definition set_generatedSrt (srt : jsstring) (prev : ProcessingState) :=
  {| step := RESULT;
     videoFile := videoFile prev;
     videoBase64 := videoBase64 prev;
     transcript := transcript prev;
     generatedSrt := srt;
     error := error prev |}.

Definition set_failed (errorMessage : jsstring) (prev : ProcessingState) :=
  {| step := ERROR;
     videoFile := videoFile prev;
     videoBase64 := videoBase64 prev;
     transcript := transcript prev;
     generatedSrt := generatedSrt prev;
     error := Some errorMessage |}.

Definition set_retry (prev : ProcessingState) :=
  {| step := TRANSCRIPT;
     videoFile := videoFile prev;
     videoBase64 := videoBase64 prev;
     transcript := transcript prev;
     generatedSrt := generatedSrt prev;
     error := None |}.

(** *** handleFileSelect and handleDrop

    The part of the handler that runs before [await fileToBase64(file)]: the
    state it leaves, and the file whose encoding it has started, if any. *)

Definition too_large : jsstring :=
  lit "File too large. Please upload a video smaller than " ++
  digits MAX_FILE_SIZE_MB ++ lit "MB.".

Definition not_a_video : jsstring := lit "Please upload a valid video file.".

Definition handleFileSelect (files : list File) (prev : ProcessingState)
  : ProcessingState * option File :=
  match files with
  | file :: _ =>
      if (size file >? MAX_FILE_SIZE_BYTES)%Z then
        (set_error (Some too_large) prev, None)
      else if negb (startsWith (lit "video/") (type file)) then
        (set_error (Some not_a_video) prev, None)
      else (set_videoFile file prev, Some file)
  | [] => (prev, None)
  end.

Definition handleDrop (files : list File) (prev : ProcessingState)
  : ProcessingState * option File :=
  match files with
  | file :: _ =>
      if (size file >? MAX_FILE_SIZE_BYTES)%Z then
        (set_error (Some too_large) prev, None)
      else if negb (startsWith (lit "video/") (type file)) then
        (set_error (Some not_a_video) prev, None)
      else (set_videoFile file prev, Some file)
  | [] => (prev, None)
  end.

(** The rest of either handler, once [fileToBase64] has resolved, the
    reader having loaded [result], or has rejected. *)
Definition encoded (result : jsstring) : ProcessingState -> ProcessingState :=
  set_videoBase64 (fileToBase64 result).

Definition not_encoded : ProcessingState -> ProcessingState :=
  set_error (Some (lit "Failed to process video file.")).

(** *** handleGenerate

    [state] is the state of the render the handler belongs to.  The part
    before [await generateSrtFromVideo(...)] gives the next state and, when
    the call is made, the [state] the call and the [catch] block read. *)

Definition handleGenerate (state : ProcessingState)
  : ProcessingState * option ProcessingState :=
  if negb (truthy (videoBase64 state))
     || match videoFile state with Some _ => false | None => true end
     || match trim (transcript state) with [] => true | _ :: _ => false end
  then (set_error (Some (lit "Please provide both a video and a transcript.")) state, None)
  else (set_processing state, Some state).

(** The arguments of the call. *)
Definition call (API_KEY : option jsstring) (generateContent : Request -> Reply)
    (state : ProcessingState) : list Request * Outcome :=
  generateSrtFromVideo API_KEY generateContent
    (or_else (videoBase64 state) [])
    (match videoFile state with Some file => type file | None => [] end)
    (transcript state).

Definition size_hint : jsstring :=
  lit " (The file might be too large for direct API processing. Try compressing it under 20MB.)".

(** The message the [catch] block stores for an error with message
    [message]. *)
Definition errorMessage (state : ProcessingState) (message : jsstring)
  : jsstring :=
  let errorMessage :=
    or_else (Some message) (lit "An error occurred while communicating with AI.") in
  match videoFile state with
  | Some file =>
      if (size file >? 20 * 1024 * 1024)%Z && includes (lit "400") errorMessage
      then errorMessage ++ size_hint
      else errorMessage
  | None => errorMessage
  end.

(** The rest of [handleGenerate], once the call has ended. *)
Definition generated (state : ProcessingState) (o : Outcome)
  : ProcessingState -> ProcessingState :=
  match o with
  | Resolved srt => set_generatedSrt srt
  | Thrown message => set_failed (errorMessage state message)
  end.

Definition handleReset (_ : ProcessingState) : ProcessingState := initialState.

(** *** The application as a transition system

    Besides the state of the component, a configuration holds the
    encodings and the alignment calls that have been started and have not
    ended.  An event is a user action on an element of the rendered step,
    or the end of one of the pending operations.  The component is taken
    to be rendered again between two events, so that a handler reads the
    current state. *)

Record Config := {
  ui : ProcessingState;
  encoding : list File;
  aligning : list ProcessingState;
  saved : list Download
}.

Definition start : Config :=
  {| ui := initialState; encoding := []; aligning := []; saved := [] |}.

Inductive Event :=
| FileSelected (files : list File)
| FileDropped (files : list File)
| EncodingResolved (i : nat) (result : jsstring)
| EncodingRejected (i : nat)
| TranscriptEdited (value : jsstring)
| GenerateClicked
| CallEnded (i : nat) (API_KEY : option jsstring)
            (generateContent : Request -> Reply)
| ResetClicked
| DownloadClicked
| RetryClicked.

Definition AppStep_eqb (a b : AppStep) : bool :=
  match a, b with
  | UPLOAD, UPLOAD | TRANSCRIPT, TRANSCRIPT | PROCESSING, PROCESSING
  | RESULT, RESULT | ERROR, ERROR => true
  | _, _ => false
  end.

Fixpoint remove_nth {A : Type} (i : nat) (l : list A) : list A :=
  match i, l with
  | _, [] => []
  | O, _ :: l' => l'
  | S i', x :: l' => x :: remove_nth i' l'
  end.

Definition opt_list {A : Type} (o : option A) : list A :=
  match o with Some x => [x] | None => [] end.

(** Whether the step rendered offers the element the event acts on: the
    drop zone and the file input belong to [renderUploadStep], the text
    area, the Remove button and the Generate button (disabled while the
    transcript is blank) to [renderTranscriptStep], the Download and New
    Project buttons to [renderResultStep], and Try Again to
    [renderErrorStep]; [renderProcessingStep] has no control. *)
Definition offered (s : ProcessingState) (e : Event) : bool :=
  match e with
  | FileSelected _ | FileDropped _ => AppStep_eqb (step s) UPLOAD
  | TranscriptEdited _ => AppStep_eqb (step s) TRANSCRIPT
  | GenerateClicked =>
      AppStep_eqb (step s) TRANSCRIPT &&
      match trim (transcript s) with [] => false | _ :: _ => true end
  | ResetClicked =>
      AppStep_eqb (step s) TRANSCRIPT || AppStep_eqb (step s) RESULT
  | DownloadClicked => AppStep_eqb (step s) RESULT
  | RetryClicked => AppStep_eqb (step s) ERROR
  | EncodingResolved _ _ | EncodingRejected _ | CallEnded _ _ _ => true
  end.

Definition fire (c : Config) (e : Event) : option Config :=
  if negb (offered (ui c) e) then None else
  match e with
  | FileSelected files =>
      let (s, started) := handleFileSelect files (ui c) in
      Some {| ui := s; encoding := encoding c ++ opt_list started;
              aligning := aligning c; saved := saved c |}
  | FileDropped files =>
      let (s, started) := handleDrop files (ui c) in
      Some {| ui := s; encoding := encoding c ++ opt_list started;
              aligning := aligning c; saved := saved c |}
  | EncodingResolved i result =>
      match nth_error (encoding c) i with
      | Some _ =>
          Some {| ui := encoded result (ui c);
                  encoding := remove_nth i (encoding c);
                  aligning := aligning c;
                  saved := saved c |}
      | None => None
      end
  | EncodingRejected i =>
      match nth_error (encoding c) i with
      | Some _ =>
          Some {| ui := not_encoded (ui c);
                  encoding := remove_nth i (encoding c);
                  aligning := aligning c;
                  saved := saved c |}
      | None => None
      end
  | TranscriptEdited value =>
      Some {| ui := set_transcript value (ui c); encoding := encoding c;
              aligning := aligning c; saved := saved c |}
  | GenerateClicked =>
      let (s, called) := handleGenerate (ui c) in
      Some {| ui := s; encoding := encoding c;
              aligning := aligning c ++ opt_list called;
              saved := saved c |}
  | CallEnded i API_KEY generateContent =>
      match nth_error (aligning c) i with
      | Some state =>
          Some {| ui := generated state
                          (snd (call API_KEY generateContent state)) (ui c);
                  encoding := encoding c;
                  aligning := remove_nth i (aligning c);
                  saved := saved c |}
      | None => None
      end
  | ResetClicked =>
      Some {| ui := handleReset (ui c); encoding := encoding c;
              aligning := aligning c; saved := saved c |}
  | DownloadClicked =>
      Some {| ui := ui c; encoding := encoding c; aligning := aligning c;
              saved :=
                saved c ++
                [downloadSrt (generatedSrt (ui c))
                   (or_else (option_map name (videoFile (ui c)))
                            (lit "video"))] |}
  | RetryClicked =>
      Some {| ui := set_retry (ui c); encoding := encoding c;
              aligning := aligning c; saved := saved c |}
  end.

Fixpoint run (c : Config) (events : list Event) : option Config :=
  match events with
  | [] => Some c
  | e :: rest =>
      match fire c e with
      | Some c' => run c' rest
      | None => None
      end
  end.

(** An event that offers a file while an encoding is still pending. *)
Definition overlapping (c : Config) (e : Event) : bool :=
  match e with
  | FileSelected _ | FileDropped _ =>
      match encoding c with [] => false | _ :: _ => true end
  | _ => false
  end.

(** A run none of whose events is overlapping. *)
Fixpoint apart (c : Config) (events : list Event) : bool :=
  match events with
  | [] => true
  | e :: rest =>
      negb (overlapping c e) &&
      match fire c e with
      | Some c' => apart c' rest
      | None => true
      end
  end.

(** At most one operation is pending: an encoding, on the upload step, or
    an alignment call, on the processing step. *)
Definition serial (c : Config) : Prop :=
  match aligning c with
  | [] =>
      match encoding c with
      | [] => True
      | [_] => step (ui c) = UPLOAD
      | _ => False
      end
  | [_] => step (ui c) = PROCESSING /\ encoding c = []
  | _ => False
  end.

End App.

Import App.

(** ** Sample inputs *)
Module Samples.

Definition oversized : File :=
  {| name := lit "film.mp4"; size := 209715201; type := lit "video/mp4" |}.

Definition clip : File :=
  {| name := lit "clip.mp4"; size := 1048576; type := lit "video/mp4" |}.

Definition feature : File :=
  {| name := lit "feature.mp4"; size := 26214400; type := lit "video/mp4" |}.

(** A state of the transcript step with a 25 MB video and a transcript. *)
Definition ready : ProcessingState :=
  {| step := TRANSCRIPT;
     videoFile := Some feature;
     videoBase64 := Some (lit "AAAA");
     transcript := lit "Hello world";
     generatedSrt := [];
     error := None |}.

(** A service that refuses every request. *)
Definition refusing (_ : Request) : Reply :=
  Rejected (Some (lit "400 Bad Request")).

Definition long : File :=
  {| name := lit "long.mp4"; size := 157286400; type := lit "video/mp4" |}.

(** A second file is dropped while the first is being encoded; the second
    encoding ends first, a transcript is entered and Generate is clicked. *)
Definition first_call : list Event :=
  [FileSelected [long];
   FileDropped [clip];
   EncodingResolved 1 (lit "data:video/mp4;base64,BBBB");
   TranscriptEdited (lit "Hello world");
   GenerateClicked].

(** Then the first encoding ends. *)
Definition late_encoding : Event :=
  EncodingResolved 0 (lit "data:video/mp4;base64,AAAA").

(** The interior of the fenced response of the specification. *)
Definition subtitle : jsstring :=
  lit "1" ++ nl ++ lit "00:00:00,000 --> 00:00:01,000" ++ nl ++ lit "hi".

(** A service that answers every request with the subtitle in a fence. *)
Definition answering (_ : Request) : Reply :=
  Responded (Some (lit "```srt" ++ nl ++ subtitle ++ nl ++ lit "```")).

(** A whole session: a file is chosen and encoded, a transcript entered,
    the subtitles generated and saved. *)
Definition session : list Event :=
  [FileSelected [clip];
   EncodingResolved 0 (lit "data:video/mp4;base64,AAAA");
   TranscriptEdited (lit "Hello world");
   GenerateClicked;
   CallEnded 0 (Some (lit "key")) answering;
   DownloadClicked].

End Samples.

Import Samples.

(** ** What the component shows, and notions used in the statements *)
Module View.

(** The size [renderTranscriptStep] shows under the name of the file:
    [formatFileSize(state.videoFile?.size || 0)]. *)
Definition fileSizeLabel (state : ProcessingState) : jsstring :=
  formatFileSize
    (match videoFile state with Some file => size file | None => 0%Z end).

(** A file that passes the two checks of the upload handlers. *)
Definition accepted (file : File) : Prop :=
  (size file <= MAX_FILE_SIZE_BYTES)%Z
  /\ startsWith (lit "video/") (type file) = true.

(** A state for which [handleGenerate] makes the call. *)
Definition callable (state : ProcessingState) : Prop :=
  snd (handleGenerate state) = Some state.

(** [part] is a run of consecutive characters of [whole]. *)
Definition part_of (part whole : jsstring) : Prop :=
  exists before after, whole = before ++ part ++ after.

(** The files an event offers have a size that is not negative, as the
    size of a browser file is. *)
Definition files_sized (e : Event) : Prop :=
  match e with
  | FileSelected files | FileDropped files =>
      Forall (fun file => (0 <= size file)%Z) files
  | _ => True
  end.

(** What holds of every configuration the application reaches: the video
    handle, the files being encoded and the video of every pending call
    have passed the upload checks; every pending call was made from a
    state for which [handleGenerate] makes it; on the error step there is
    a message; the result and every text saved have no white space at
    either end, and every file saved has a name ending with ".srt". *)
Record sound (c : Config) : Prop := {
  sound_videoFile :
    forall file, videoFile (ui c) = Some file -> accepted file;
  sound_encoding : Forall accepted (encoding c);
  sound_aligning :
    Forall (fun state =>
              callable state /\
              forall file, videoFile state = Some file -> accepted file)
           (aligning c);
  sound_error :
    step (ui c) = ERROR ->
    exists message, error (ui c) = Some message /\ message <> [];
  sound_generatedSrt : trim (generatedSrt (ui c)) = generatedSrt (ui c);
  sound_saved :
    Forall (fun d => trim (blob_content d) = blob_content d
                     /\ endsWith (lit ".srt") (download d) = true)
           (saved c)
}.

(** What may stand before the interior of a response: white space only,
    or a fence, untagged and followed by white space or tagged "srt" in
    any letter case, and the white space after it. *)
Definition opening (o : jsstring) : Prop :=
  forallb is_space o = true
  \/ exists tag ws,
       o = lit "```" ++ tag ++ ws
       /\ forallb is_space ws = true
       /\ ((tag = [] /\ ws <> []) \/ map upper tag = lit "SRT").

(** What may stand after it: white space only, or white space and a
    fence. *)
Definition closing (cl : jsstring) : Prop :=
  forallb is_space cl = true
  \/ exists ws, forallb is_space ws = true /\ cl = ws ++ lit "```".

End View.

Import View.

(** ** Properties of [formatFileSize] *)

Lemma endsWith_app (s p : jsstring) : endsWith p (s ++ p) = true.
Proof.
  unfold endsWith. rewrite rev_app_distr.
  induction (rev p) as [|a r IH]; [reflexivity|].
  cbn [app startsWith]. now rewrite N.eqb_refl.
Qed.

Lemma unit_index_bounds (bytes : Z) :
  (1 <= bytes < 2 ^ 40)%Z ->
  (0 <= unit_index bytes <= 3)%Z
  /\ (k ^ unit_index bytes <= bytes < k ^ (unit_index bytes + 1))%Z.
Proof.
  intros [Hlo Hhi]. unfold unit_index, k.
  assert (Hpos : (0 < bytes)%Z) by lia.
  pose proof (Z.log2_nonneg bytes) as H0.
  assert (H40 : (Z.log2 bytes < 40)%Z) by (apply Z.log2_lt_pow2; lia).
  destruct (Z.log2_spec bytes Hpos) as [Hle Hlt].
  remember (Z.log2 bytes) as l eqn:El. clear El.
  assert (Hl : (10 * (l / 10) <= l < 10 * (l / 10) + 10)%Z).
  { pose proof (Z.div_mod l 10 ltac:(lia)).
    pose proof (Z.mod_pos_bound l 10 ltac:(lia)). lia. }
  assert (Hi : (0 <= l / 10 <= 3)%Z) by lia.
  split; [exact Hi|].
  change 1024%Z with (2 ^ 10)%Z.
  rewrite <- !Z.pow_mul_r by lia.
  split.
  - apply Z.le_trans with (2 ^ l)%Z; [|exact Hle].
    apply Z.pow_le_mono_r; lia.
  - apply Z.lt_le_trans with (2 ^ Z.succ l)%Z; [exact Hlt|].
    apply Z.pow_le_mono_r; lia.
Qed.

Lemma toFixed2_nearest (bytes i : Z) :
  (0 <= i)%Z ->
  (Z.abs (2 * (toFixed2 bytes i * k ^ i - 100 * bytes)) <= k ^ i)%Z.
Proof.
  intros Hi. unfold toFixed2.
  assert (HK : (0 < k ^ i)%Z) by (apply Z.pow_pos_nonneg; unfold k; lia).
  set (K := (k ^ i)%Z) in *.
  pose proof (Z.div_mod (200 * bytes + K) (2 * K) ltac:(lia)) as Hdm.
  pose proof (Z.mod_pos_bound (200 * bytes + K) (2 * K) ltac:(lia)) as Hm.
  apply Z.abs_le. lia.
Qed.

(** X1.  Below [2^40] bytes the unit is the one of the
    table whose power of 1024 is the largest not above the byte count, the
    number printed is the nearest multiple of one hundredth to the scaled
    count, and the text ends with the unit. *)
Theorem formatFileSize_below_tebibyte :
  formatFileSize 0 = lit "0 Bytes"
  /\ forall bytes,
      (1 <= bytes < 2 ^ 40)%Z ->
      exists i u,
        (0 <= i <= 3)%Z
        /\ nth_error sizes (Z.to_nat i) = Some u
        /\ (k ^ i <= bytes < k ^ (i + 1))%Z
        /\ (Z.abs (2 * (toFixed2 bytes i * k ^ i - 100 * bytes)) <= k ^ i)%Z
        /\ formatFileSize bytes = number_text (toFixed2 bytes i) ++ lit " " ++ u
        /\ formatFileSize bytes <> []
        /\ endsWith u (formatFileSize bytes) = true.
Proof.
  split; [reflexivity|].
  intros bytes Hb.
  destruct (unit_index_bounds bytes Hb) as [Hi Hk].
  assert (Hf : forall u, sizes_at (unit_index bytes) = u ->
                 formatFileSize bytes
                 = number_text (toFixed2 bytes (unit_index bytes)) ++ lit " " ++ u).
  { intros u <-. unfold formatFileSize.
    destruct (Z.eqb_spec bytes 0); [lia|].
    destruct (Z.ltb_spec bytes 0); [lia | reflexivity]. }
  assert (Hu : exists u, nth_error sizes (Z.to_nat (unit_index bytes)) = Some u
                         /\ sizes_at (unit_index bytes) = u).
  { assert (Hcase : unit_index bytes = 0%Z \/ unit_index bytes = 1%Z \/
                    unit_index bytes = 2%Z \/ unit_index bytes = 3%Z) by lia.
    destruct Hcase as [-> | [-> | [-> | ->]]]; eexists; split; reflexivity. }
  destruct Hu as (u & Hnth & Hat).
  exists (unit_index bytes), u.
  rewrite (Hf u Hat).
  repeat split; try assumption; try lia.
  - apply toFixed2_nearest. lia.
  - intros Hnil. apply (f_equal (@List.length _)) in Hnil.
    rewrite !length_app in Hnil. cbn in Hnil. lia.
  - rewrite app_assoc. apply endsWith_app.
Qed.

Lemma formatFileSize_below_tebibyte_witness :
  exists i u,
    (0 <= i <= 3)%Z
    /\ nth_error sizes (Z.to_nat i) = Some u
    /\ (k ^ i <= 65011712 < k ^ (i + 1))%Z
    /\ (Z.abs (2 * (toFixed2 65011712 i * k ^ i - 100 * 65011712)) <= k ^ i)%Z
    /\ formatFileSize 65011712 = number_text (toFixed2 65011712 i) ++ lit " " ++ u
    /\ formatFileSize 65011712 <> []
    /\ endsWith u (formatFileSize 65011712) = true.
Proof.
  apply (proj2 formatFileSize_below_tebibyte).
  split; [lia | apply Z.ltb_lt; reflexivity].
Defined.

(** C2 fails on the code from [2^40] bytes on: the table of units has four
    entries and the index is not bounded.  For 5 * 2^40 bytes the index is
    4 and the text is "5 undefined", which ends with no unit of the
    table. *)
Theorem formatFileSize_five_tebibytes :
  formatFileSize 5497558138880 = lit "5 undefined"
  /\ forall u, In u sizes -> endsWith u (formatFileSize 5497558138880) = false.
Proof.
  split; [vm_compute; reflexivity|].
  intros u [<- | [<- | [<- | [<- | []]]]]; vm_compute; reflexivity.
Qed.

(** ** Properties of [downloadSrt] *)

Lemma forallb_ext_char_no_dot (s t : jsstring) :
  forallb ext_char (s ++ 46 :: t) = false.
Proof.
  induction s as [|c s IH]; simpl.
  - reflexivity.
  - rewrite IH. apply andb_false_r.
Qed.

Lemma matches_ext_cons (c : code_unit) (u : jsstring) :
  u <> [] -> matches_ext (c :: u) = (c =? 46) && forallb ext_char u.
Proof.
  destruct u as [|c' u]; [congruence | reflexivity].
Qed.

Lemma matches_ext_before_dot (c : code_unit) (s t : jsstring) :
  matches_ext (c :: s ++ 46 :: t) = false.
Proof.
  rewrite matches_ext_cons by (destruct s; discriminate).
  rewrite forallb_ext_char_no_dot. apply andb_false_r.
Qed.

Lemma strip_ext_app (stem ext : jsstring) :
  ext <> [] -> forallb ext_char ext = true ->
  strip_ext (stem ++ 46 :: ext) = stem.
Proof.
  intros Hne Hext.
  induction stem as [|c stem IH].
  - simpl app. destruct ext as [|e ext]; [congruence|].
    unfold strip_ext. unfold matches_ext. rewrite Hext. reflexivity.
  - change ((c :: stem) ++ 46 :: ext) with (c :: stem ++ 46 :: ext).
    cbn [strip_ext]. rewrite matches_ext_before_dot.
    fold strip_ext. now rewrite IH.
Qed.

(** When the pattern matches somewhere, the input splits into what is kept,
    a dot and a non-empty run of characters other than dot and slash. *)
Lemma strip_ext_cases (s : jsstring) :
  strip_ext s = s \/
  exists stem ext, s = stem ++ 46 :: ext /\ ext <> [] /\
                   forallb ext_char ext = true /\ strip_ext s = stem.
Proof.
  induction s as [|c s IH].
  - now left.
  - cbn [strip_ext]. destruct (matches_ext (c :: s)) eqn:Hm.
    + right. exists [], s.
      destruct s as [|c' s]; [discriminate|].
      unfold matches_ext in Hm. apply andb_prop in Hm as [Hd Hx].
      apply N.eqb_eq in Hd. subst c. repeat split; try assumption; discriminate.
    + fold strip_ext. destruct IH as [IH | (stem & ext & -> & Hne & Hx & Hs)].
      * left. now rewrite IH.
      * right. exists (c :: stem), ext. rewrite Hs. repeat split; assumption.
Qed.

Lemma ext_char_Forall (ext : jsstring) :
  Forall (fun c => c <> 46 /\ c <> 47) ext <-> forallb ext_char ext = true.
Proof.
  rewrite forallb_forall, Forall_forall.
  split; intros H c Hc; specialize (H c Hc); unfold ext_char in *.
  - destruct H as [H46 H47].
    apply N.eqb_neq in H46, H47. now rewrite H46, H47.
  - apply andb_prop in H as [H47 H46].
    apply negb_true_iff in H46, H47. apply N.eqb_neq in H46, H47. now split.
Qed.

(** C9.  [downloadSrt] names the file after the suggested name with its
    final extension removed, followed by ".srt": when the name ends with a
    dot and a non-empty run of characters other than dot and slash, that
    dot and run are removed; when it does not end so, the whole name is
    kept.  "movie.mp4" gives "movie.srt" and "clip" gives "clip.srt". *)
Theorem downloadSrt_replaces_final_extension :
  (forall content stem ext,
      ext <> [] -> Forall (fun c => c <> 46 /\ c <> 47) ext ->
      download (downloadSrt content (stem ++ lit "." ++ ext))
      = stem ++ lit ".srt")
  /\ (forall content filename,
         (forall stem ext,
             filename = stem ++ lit "." ++ ext -> ext <> [] ->
             ~ Forall (fun c => c <> 46 /\ c <> 47) ext) ->
         download (downloadSrt content filename) = filename ++ lit ".srt")
  /\ download (downloadSrt (lit "abc") (lit "movie.mp4")) = lit "movie.srt"
  /\ download (downloadSrt (lit "abc") (lit "clip")) = lit "clip.srt".
Proof.
  split; [|split; [|split; reflexivity]].
  - intros content stem ext Hne Hext. unfold downloadSrt; cbn [download].
    change (lit "." ++ ext) with (46 :: ext).
    rewrite strip_ext_app; [reflexivity | assumption | now apply ext_char_Forall].
  - intros content filename Hnone. unfold downloadSrt; cbn [download].
    destruct (strip_ext_cases filename)
      as [-> | (stem & ext & Heq & Hne & Hext & _)]; [reflexivity|].
    exfalso. apply (Hnone stem ext Heq Hne).
    now apply ext_char_Forall.
Qed.

Lemma downloadSrt_replaces_final_extension_witness :
  download (downloadSrt (lit "abc") (lit "movie" ++ lit "." ++ lit "mp4"))
  = lit "movie" ++ lit ".srt".
Proof.
  apply (proj1 downloadSrt_replaces_final_extension).
  - discriminate.
  - repeat (constructor; [split; discriminate|]). constructor.
Defined.

(** C10, as the code has it.  For every suggested name made of a dot
    followed by at least one character, none of them a dot or a slash,
    [downloadSrt] takes the whole name for the extension: the file is named
    ".srt". *)
Theorem downloadSrt_hidden_file_name :
  forall content rest,
    rest <> [] -> Forall (fun c => c <> 46 /\ c <> 47) rest ->
    download (downloadSrt content (lit "." ++ rest)) = lit ".srt".
Proof.
  intros content rest Hne Hrest. unfold downloadSrt; cbn [download].
  change (lit "." ++ rest) with ([] ++ 46 :: rest).
  rewrite strip_ext_app; [reflexivity | assumption | now apply ext_char_Forall].
Qed.

Lemma downloadSrt_hidden_file_name_witness :
  download (downloadSrt (lit "abc") (lit "." ++ lit "gitignore")) = lit ".srt".
Proof.
  apply downloadSrt_hidden_file_name.
  - discriminate.
  - repeat (constructor; [split; discriminate|]). constructor.
Defined.

(** C10 as stated fails on the name ".", which begins with a dot and has
    no other dot: nothing follows the dot, the pattern does not match and
    the file is named "..srt". *)
Lemma downloadSrt_lone_dot :
  download (downloadSrt (lit "abc") (lit ".")) = lit "..srt"
  /\ download (downloadSrt (lit "abc") (lit ".")) <> lit ".srt".
Proof.
  split; [reflexivity | discriminate].
Qed.

(** ** Properties of [trim] and of the cleaning of the response *)

Lemma trimStart_spaces (ws s : jsstring) :
  forallb is_space ws = true -> trimStart (ws ++ s) = trimStart s.
Proof.
  induction ws as [|w ws IH]; cbn [forallb app trimStart]; [reflexivity|].
  intros H. apply andb_prop in H as [Hw Hws]. rewrite Hw. now apply IH.
Qed.

Lemma trimStart_head (c : code_unit) (s : jsstring) :
  is_space c = false -> trimStart (c :: s) = c :: s.
Proof.
  intros H. cbn [trimStart]. now rewrite H.
Qed.

Lemma trimStart_app_head (a b : jsstring) (c : code_unit) :
  is_space c = false -> trimStart (a ++ c :: b) = trimStart a ++ c :: b.
Proof.
  intros Hc. induction a as [|x a IH]; cbn [app trimStart].
  - now rewrite Hc.
  - destruct (is_space x); [exact IH | reflexivity].
Qed.

Lemma trimStart_result (s : jsstring) :
  trimStart s = [] \/
  exists c t, trimStart s = c :: t /\ is_space c = false.
Proof.
  induction s as [|x s IH]; cbn [trimStart]; [now left|].
  destruct (is_space x) eqn:Hx; [exact IH|].
  right. now exists x, s.
Qed.

Lemma trimStart_length (s : jsstring) :
  (List.length (trimStart s) <= List.length s)%nat.
Proof.
  induction s as [|x s IH]; cbn [trimStart]; [reflexivity|].
  destruct (is_space x); cbn [List.length]; lia.
Qed.

Lemma trimEnd_length (s : jsstring) :
  (List.length (trimEnd s) <= List.length s)%nat.
Proof.
  unfold trimEnd. rewrite length_rev.
  rewrite <- (length_rev s). apply trimStart_length.
Qed.

Lemma trimEnd_spaces (s ws : jsstring) :
  forallb is_space ws = true -> trimEnd (s ++ ws) = trimEnd s.
Proof.
  intros Hws. unfold trimEnd. rewrite rev_app_distr, trimStart_spaces;
    [reflexivity|].
  rewrite forallb_forall in *. intros x Hx. apply Hws. now apply in_rev.
Qed.

Lemma trimEnd_cons (c : code_unit) (t : jsstring) :
  is_space c = false -> trimEnd (c :: t) = c :: trimEnd t.
Proof.
  intros Hc. unfold trimEnd. cbn [rev].
  rewrite (trimStart_app_head (rev t) [] c Hc), rev_app_distr. reflexivity.
Qed.

Lemma trimEnd_idem (s : jsstring) : trimEnd (trimEnd s) = trimEnd s.
Proof.
  unfold trimEnd. rewrite rev_involutive. f_equal.
  destruct (trimStart_result (rev s)) as [-> | (c & t & -> & Hc)];
    [reflexivity | now apply trimStart_head].
Qed.

Lemma trim_idem (s : jsstring) : trim (trim s) = trim s.
Proof.
  unfold trim.
  destruct (trimStart_result s) as [-> | (c & t & -> & Hc)]; [reflexivity|].
  rewrite (trimEnd_cons c t Hc), (trimStart_head c _ Hc).
  rewrite <- (trimEnd_cons c t Hc). apply trimEnd_idem.
Qed.

(** A text that [trim] leaves as it is begins with no white space and ends
    with none. *)
Lemma trim_fixed (c : code_unit) (b : jsstring) :
  trim (c :: b) = c :: b -> is_space c = false /\ trimEnd (c :: b) = c :: b.
Proof.
  intros Hfix.
  assert (Hc : is_space c = false).
  { destruct (is_space c) eqn:Hc; [exfalso | reflexivity].
    apply (f_equal (@List.length _)) in Hfix.
    unfold trim in Hfix. cbn [trimStart] in Hfix. rewrite Hc in Hfix.
    pose proof (trimEnd_length (trimStart b)).
    pose proof (trimStart_length b).
    cbn [List.length] in Hfix. lia. }
  split; [exact Hc|].
  unfold trim in Hfix. now rewrite (trimStart_head c b Hc) in Hfix.
Qed.

Lemma trim_body_spaces (body ws : jsstring) :
  trim body = body -> forallb is_space ws = true -> trim (body ++ ws) = body.
Proof.
  intros Hfix Hws. destruct body as [|c b].
  - unfold trim. cbn [app]. rewrite <- (app_nil_r ws).
    now rewrite (trimStart_spaces ws [] Hws).
  - destruct (trim_fixed c b Hfix) as [Hc Hend].
    unfold trim. change ((c :: b) ++ ws) with (c :: (b ++ ws)).
    rewrite (trimStart_head c _ Hc).
    change (c :: b ++ ws) with ((c :: b) ++ ws).
    now rewrite trimEnd_spaces.
Qed.

Lemma startsWith_app (p s : jsstring) : startsWith p (p ++ s) = true.
Proof.
  induction p as [|a p IH]; [reflexivity|].
  cbn [app startsWith]. now rewrite N.eqb_refl.
Qed.

Lemma strip_trailing_fence_app (s : jsstring) :
  strip_trailing_fence (s ++ lit "```") = s.
Proof.
  unfold strip_trailing_fence, endsWith.
  rewrite rev_app_distr, startsWith_app, length_app.
  replace (List.length s + List.length (lit "```") - 3)%nat
    with (List.length s + 0)%nat by (cbn; lia).
  rewrite firstn_app_2. cbn [firstn]. apply app_nil_r.
Qed.

Lemma upper_space (w : code_unit) :
  is_space w = true -> upper w = w.
Proof.
  intros Hw. unfold upper.
  destruct ((97 <=? w) && (w <=? 122)) eqn:R; [exfalso | reflexivity].
  apply andb_prop in R as [Hlo Hhi].
  apply N.leb_le in Hlo, Hhi.
  unfold is_space in Hw.
  repeat (apply orb_prop in Hw as [Hw | Hw]);
    try (apply N.eqb_eq in Hw; lia).
  apply andb_prop in Hw as [Hw _]. apply N.leb_le in Hw. lia.
Qed.

Lemma upper_backtick (c : code_unit) : upper c = 96 -> c = 96.
Proof.
  unfold upper. destruct ((97 <=? c) && (c <=? 122)) eqn:R; [|auto].
  apply andb_prop in R as [Hlo Hhi]. apply N.leb_le in Hlo, Hhi. lia.
Qed.

Lemma strip_leading_srt_untagged (w : code_unit) (rest : jsstring) :
  is_space w = true ->
  strip_leading (lit "```srt") (lit "```" ++ w :: rest)
  = lit "```" ++ w :: rest.
Proof.
  intros Hw. unfold strip_leading.
  cbn [lit list_ascii_of_string map app match_prefix_ci].
  change (upper (N_of_ascii "`")) with 96. rewrite !N.eqb_refl.
  rewrite (upper_space w Hw).
  destruct (upper (N_of_ascii "s") =? w) eqn:E; [|reflexivity].
  apply N.eqb_eq in E. subst w. discriminate Hw.
Qed.

Lemma strip_leading_srt_tagged (tag rest : jsstring) :
  map upper tag = lit "SRT" ->
  strip_leading (lit "```srt") (lit "```" ++ tag ++ rest) = trimStart rest.
Proof.
  intros Htag. unfold strip_leading.
  destruct tag as [|a [|b [|c [|]]]]; try discriminate Htag.
  injection Htag as Ha Hb Hc.
  cbn [lit list_ascii_of_string map app match_prefix_ci].
  rewrite Ha, Hb, Hc. reflexivity.
Qed.

Lemma strip_leading_fence (rest : jsstring) :
  strip_leading (lit "```") (lit "```" ++ rest) = trimStart rest.
Proof. reflexivity. Qed.

Lemma strip_leading_fence_none (c : code_unit) (rest : jsstring) :
  c <> 96 -> strip_leading (lit "```") (c :: rest) = c :: rest.
Proof.
  intros Hc. unfold strip_leading.
  cbn [lit list_ascii_of_string map match_prefix_ci].
  destruct (upper (N_of_ascii "`") =? upper c) eqn:E; [|reflexivity].
  apply N.eqb_eq in E. symmetry in E. apply upper_backtick in E. contradiction.
Qed.

Lemma upper_eqb_backtick (c : code_unit) : (upper 96 =? upper c) = (96 =? c).
Proof.
  change (upper 96) with 96.
  destruct (N.eqb_spec 96 c) as [<- | Hne]; [reflexivity|].
  apply N.eqb_neq. intros Heq. symmetry in Heq.
  apply upper_backtick in Heq. congruence.
Qed.

Lemma match_prefix_ci_app (p q s : jsstring) :
  match_prefix_ci (p ++ q) s
  = match match_prefix_ci p s with
    | Some rest => match_prefix_ci q rest
    | None => None
    end.
Proof.
  revert s. induction p as [|a p IH]; intros s; cbn [app match_prefix_ci].
  - reflexivity.
  - destruct s as [|b s]; [reflexivity|].
    destruct (upper a =? upper b); [apply IH | reflexivity].
Qed.

Lemma match_prefix_ci_fence (text : jsstring) :
  startsWith (lit "```") text = false ->
  match_prefix_ci (lit "```") text = None.
Proof.
  cbn [lit list_ascii_of_string map].
  change (N_of_ascii "`") with 96.
  destruct text as [|a [|b [|c text]]];
    cbn [startsWith match_prefix_ci]; rewrite ?upper_eqb_backtick;
    repeat match goal with
           | |- context [96 =? ?x] => destruct (96 =? x)
           end; cbn; congruence.
Qed.

Lemma strip_leading_unfenced (text : jsstring) :
  startsWith (lit "```") text = false ->
  strip_leading (lit "```") (strip_leading (lit "```srt") text) = text.
Proof.
  intros Hstart.
  pose proof (match_prefix_ci_fence text Hstart) as Hnone.
  unfold strip_leading at 2.
  change (lit "```srt") with (lit "```" ++ lit "srt").
  rewrite match_prefix_ci_app, Hnone.
  unfold strip_leading. now rewrite Hnone.
Qed.

Lemma trimStart_nil_iff (s : jsstring) :
  trimStart s = [] <-> forallb is_space s = true.
Proof.
  induction s as [|c s IH]; cbn [trimStart forallb]; [tauto|].
  destruct (is_space c); cbn [andb]; [exact IH|].
  split; discriminate.
Qed.

Lemma trim_nil_iff (s : jsstring) :
  trim s = [] <-> forallb is_space s = true.
Proof.
  rewrite <- trimStart_nil_iff. unfold trim.
  destruct (trimStart_result s) as [-> | (c & t & -> & Hc)]; [tauto|].
  rewrite (trimEnd_cons c t Hc). split; discriminate.
Qed.

Lemma is_space_not_backtick (w : code_unit) : is_space w = true -> w <> 96.
Proof. intros Hw ->. discriminate Hw. Qed.

Lemma startsWith_fence_head (c : code_unit) (s : jsstring) :
  c <> 96 -> startsWith (lit "```") (c :: s) = false.
Proof.
  intros Hc. change (lit "```") with [96; 96; 96]. cbn [startsWith].
  apply not_eq_sym, N.eqb_neq in Hc. now rewrite Hc.
Qed.

Lemma endsWith_fence_last (s : jsstring) (x : code_unit) :
  x <> 96 -> endsWith (lit "```") (s ++ [x]) = false.
Proof.
  intros Hx. unfold endsWith. rewrite rev_app_distr.
  change (rev (lit "```")) with [96; 96; 96]. cbn [rev app startsWith].
  apply not_eq_sym, N.eqb_neq in Hx. now rewrite Hx.
Qed.

Lemma trim_spaces_body_spaces (ws0 body ws : jsstring) :
  forallb is_space ws0 = true -> forallb is_space ws = true ->
  trim body = body -> trim (ws0 ++ body ++ ws) = body.
Proof.
  intros H0 Hws Hfix.
  transitivity (trim (body ++ ws)); [|now apply trim_body_spaces].
  unfold trim. now rewrite trimStart_spaces.
Qed.

Lemma trimStart_all_spaces (ws : jsstring) :
  forallb is_space ws = true -> trimStart ws = [].
Proof. apply trimStart_nil_iff. Qed.

(** With nothing between them, an opening and a closing leave nothing. *)
Lemma cleanedText_empty_interior (o cl : jsstring) :
  opening o -> closing cl -> cleanedText (o ++ cl) = [].
Proof.
  intros Ho Hcl. unfold cleanedText.
  assert (Hfence : trimStart (lit "```") = lit "```") by reflexivity.
  assert (Hafter : forall ws,
             forallb is_space ws = true ->
             trim (strip_trailing_fence
                     (strip_leading (lit "```") (trimStart (ws ++ cl)))) = []).
  { intros ws Hws. rewrite (trimStart_spaces ws cl Hws).
    destruct Hcl as [Hcl | (ws' & Hws' & ->)].
    - now rewrite (trimStart_all_spaces cl Hcl).
    - now rewrite (trimStart_spaces ws' _ Hws'), Hfence. }
  destruct Ho as [Ho | (tag & ws & -> & Hws & Htag)].
  - destruct Hcl as [Hcl | (ws' & Hws' & ->)].
    + assert (Hall : forallb is_space (o ++ cl) = true)
        by (rewrite forallb_app; now rewrite Ho, Hcl).
      remember (o ++ cl) as t eqn:Et. clear Et.
      assert (Hend : endsWith (lit "```") t = false).
      { destruct t as [|x t' _] using rev_ind; [reflexivity|].
        apply endsWith_fence_last.
        rewrite forallb_app in Hall. apply andb_prop in Hall as [_ Hx].
        cbn [forallb] in Hx. rewrite andb_true_r in Hx.
        now apply is_space_not_backtick. }
      rewrite strip_leading_unfenced.
      * unfold strip_trailing_fence. rewrite Hend. now apply trim_nil_iff.
      * destruct t as [|w t]; [reflexivity|].
        apply startsWith_fence_head. cbn [forallb] in Hall.
        apply andb_prop in Hall as [Hw _]. now apply is_space_not_backtick.
    + assert (Hall : forallb is_space (o ++ ws') = true)
        by (rewrite forallb_app; now rewrite Ho, Hws').
      rewrite app_assoc.
      destruct (o ++ ws') as [|w t] eqn:Heq; [reflexivity|].
      rewrite strip_leading_unfenced.
      * rewrite strip_trailing_fence_app. now apply trim_nil_iff.
      * apply startsWith_fence_head. cbn [forallb] in Hall.
        apply andb_prop in Hall as [Hw _]. now apply is_space_not_backtick.
  - rewrite <- !app_assoc.
    destruct Htag as [[-> Hne] | Htag].
    + destruct ws as [|w ws]; [congruence|].
      pose proof Hws as Hall.
      cbn [forallb] in Hws. apply andb_prop in Hws as [Hw Hws].
      cbn [app]. change (96 :: 96 :: 96 :: ?x) with (lit "```" ++ x).
      rewrite (strip_leading_srt_untagged w _ Hw), strip_leading_fence.
      change (w :: ws ++ cl) with ((w :: ws) ++ cl).
      rewrite (trimStart_spaces (w :: ws) cl Hall).
      destruct Hcl as [Hcl | (ws' & Hws' & ->)].
      * now rewrite (trimStart_all_spaces cl Hcl).
      * now rewrite (trimStart_spaces ws' _ Hws'), Hfence.
    + rewrite (strip_leading_srt_tagged tag _ Htag). now apply Hafter.
Qed.

(** The two patterns anchored at the start leave, of an opening, white
    space at most. *)
Lemma strip_leading_opening (o rest : jsstring) (c : code_unit) :
  opening o -> is_space c = false -> c <> 96 ->
  exists ws0,
    forallb is_space ws0 = true
    /\ strip_leading (lit "```") (strip_leading (lit "```srt") (o ++ c :: rest))
       = ws0 ++ c :: rest.
Proof.
  intros [Ho | (tag & ws & -> & Hws & Htag)] Hc Hc96.
  - exists o. split; [exact Ho|].
    apply strip_leading_unfenced.
    destruct o as [|w o]; cbn [app]; apply startsWith_fence_head; [exact Hc96|].
    cbn [forallb] in Ho. apply andb_prop in Ho as [Hw _].
    now apply is_space_not_backtick.
  - exists []. split; [reflexivity|]. cbn [app]. rewrite <- !app_assoc.
    destruct Htag as [[-> Hne] | Htag].
    + destruct ws as [|w ws]; [congruence|].
      cbn [forallb] in Hws. apply andb_prop in Hws as [Hw Hws].
      cbn [app]. change (96 :: 96 :: 96 :: ?x) with (lit "```" ++ x).
      rewrite (strip_leading_srt_untagged w _ Hw), strip_leading_fence.
      cbn [trimStart]. rewrite Hw.
      now rewrite (trimStart_spaces ws _ Hws), (trimStart_head c _ Hc).
    + rewrite (strip_leading_srt_tagged tag _ Htag).
      rewrite (trimStart_spaces ws _ Hws), (trimStart_head c _ Hc).
      now apply strip_leading_fence_none.
Qed.

(** The pattern anchored at the end leaves, of a closing, white space at
    most. *)
Lemma strip_trailing_closing (before body cl : jsstring) :
  closing cl -> body <> [] ->
  (forallb is_space cl = true -> last body 0 <> 96) ->
  exists ws,
    forallb is_space ws = true
    /\ strip_trailing_fence (before ++ body ++ cl) = before ++ body ++ ws.
Proof.
  intros Hcl Hne Hlast.
  destruct Hcl as [Hcl | (ws & Hws & ->)].
  - exists cl. split; [exact Hcl|].
    unfold strip_trailing_fence.
    assert (Hend : endsWith (lit "```") (before ++ body ++ cl) = false).
    { destruct cl as [|w cl'] using rev_ind.
      - destruct (exists_last Hne) as (b' & x & ->).
        rewrite app_nil_r, app_assoc. apply endsWith_fence_last.
        specialize (Hlast Hcl). now rewrite last_last in Hlast.
      - rewrite !app_assoc. apply endsWith_fence_last.
        rewrite forallb_app in Hcl. apply andb_prop in Hcl as [_ Hw].
        cbn [forallb] in Hw. rewrite andb_true_r in Hw.
        now apply is_space_not_backtick. }
    now rewrite Hend.
  - exists ws. split; [exact Hws|].
    rewrite !app_assoc. rewrite strip_trailing_fence_app.
    now rewrite <- !app_assoc.
Qed.

(** C3, as the code has it.  The text returned has no white space at
    either end; and of a response made of an opening, an interior and a
    closing, exactly the interior is returned.  The opening is white
    space only, or a fence, untagged or tagged "srt" in any letter case,
    with the white space after it; the closing is white space only, or
    white space and a fence; the interior, which may be empty, has no
    white space at its ends, does not begin with a backtick and, when no
    fence closes the response, does not end with one.  Nothing is said of
    a response with white space before its opening fence or after its
    closing fence. *)
Theorem cleanedText_strips_srt_fence :
  (forall text, trim (cleanedText text) = cleanedText text)
  /\ (forall o body cl,
         opening o ->
         closing cl ->
         trim body = body ->
         hd_error body <> Some 96 ->
         (forallb is_space cl = true -> last body 0 <> 96) ->
         cleanedText (o ++ body ++ cl) = body).
Proof.
  split.
  - intros text. unfold cleanedText. apply trim_idem.
  - intros o body cl Ho Hcl Hfix Htick Hlast.
    destruct body as [|c b]; [now apply cleanedText_empty_interior|].
    destruct (trim_fixed c b Hfix) as [Hc _].
    assert (Hc96 : c <> 96) by (intros ->; now apply Htick).
    assert (Hne : c :: b <> []) by discriminate.
    destruct (strip_leading_opening o (b ++ cl) c Ho Hc Hc96)
      as (ws0 & Hws0 & Hlead).
    destruct (strip_trailing_closing ws0 (c :: b) cl Hcl Hne Hlast)
      as (ws & Hws & Htrail).
    unfold cleanedText.
    change ((c :: b) ++ cl) with (c :: b ++ cl).
    rewrite Hlead.
    change (c :: b ++ cl) with ((c :: b) ++ cl).
    rewrite Htrail.
    now apply trim_spaces_body_spaces.
Qed.

Lemma cleanedText_strips_srt_fence_witness :
  cleanedText ((lit "```" ++ lit "srt" ++ nl) ++ subtitle ++ (nl ++ lit "```"))
  = subtitle.
Proof.
  apply (proj2 cleanedText_strips_srt_fence).
  - right. exists (lit "srt"), nl.
    split; [reflexivity|]. split; [reflexivity|]. now right.
  - right. exists nl. now split.
  - reflexivity.
  - discriminate.
  - discriminate.
Defined.

(** C3 as stated fails on a fence tagged with another language: the tag
    stays in the text returned. *)
Lemma cleanedText_keeps_other_tag :
  cleanedText (lit "```json" ++ nl ++ lit "hello" ++ nl ++ lit "```")
  = lit "json" ++ nl ++ lit "hello"
  /\ cleanedText (lit "```json" ++ nl ++ lit "hello" ++ nl ++ lit "```")
     <> lit "hello".
Proof.
  split; [reflexivity | discriminate].
Qed.

(** ** Properties of [generateSrtFromVideo] *)

(** C8.  Without a credential ([process.env.API_KEY] undefined or empty)
    every call of [generateSrtFromVideo] fails with the missing-key error
    and has sent no request. *)
Theorem generateSrtFromVideo_without_key :
  forall API_KEY generateContent videoBase64 mimeType transcript,
    truthy API_KEY = false ->
    generateSrtFromVideo API_KEY generateContent videoBase64 mimeType transcript
    = ([], Thrown (lit "API Key is missing. Please ensure process.env.API_KEY is available.")).
Proof.
  intros API_KEY generateContent videoBase64 mimeType transcript Hkey.
  unfold generateSrtFromVideo. now rewrite Hkey.
Qed.

Lemma generateSrtFromVideo_without_key_witness :
  generateSrtFromVideo None (fun _ => Responded (Some (lit "1")))
    (lit "AAAA") (lit "video/mp4") (lit "Hello world")
  = ([], Thrown (lit "API Key is missing. Please ensure process.env.API_KEY is available.")).
Proof.
  apply generateSrtFromVideo_without_key. reflexivity.
Defined.

(** ** Properties of the workflow *)

Lemma nth_error_snoc {A : Type} (l : list A) (x : A) :
  nth_error (l ++ [x]) (List.length l) = Some x.
Proof.
  induction l as [|y l IH]; [reflexivity | exact IH].
Qed.

Lemma remove_nth_snoc {A : Type} (l : list A) (x : A) :
  remove_nth (List.length l) (l ++ [x]) = l.
Proof.
  induction l as [|y l IH]; [reflexivity | simpl; now rewrite IH].
Qed.

(** The two entry points of the upload step do the same. *)
Lemma handleDrop_handleFileSelect (files : list File) (prev : ProcessingState) :
  handleDrop files prev = handleFileSelect files prev.
Proof. reflexivity. Qed.

Lemma handleFileSelect_rejects (file : File) (others : list File)
      (prev : ProcessingState) :
  (size file > 200 * 1024 * 1024)%Z \/
  startsWith (lit "video/") (type file) = false ->
  exists message,
    handleFileSelect (file :: others) prev = (set_error (Some message) prev, None).
Proof.
  intros Hbad. unfold handleFileSelect.
  destruct (size file >? MAX_FILE_SIZE_BYTES)%Z eqn:Hsize.
  - now exists too_large.
  - destruct Hbad as [Hbig | Htype].
    + rewrite Z.gtb_ltb in Hsize. apply Z.ltb_ge in Hsize.
      unfold MAX_FILE_SIZE_BYTES, MAX_FILE_SIZE_MB in Hsize. lia.
    + rewrite Htype. now exists not_a_video.
Qed.

Lemma handleFileSelect_accepts (file : File) (others : list File)
      (prev : ProcessingState) :
  (size file <= 200 * 1024 * 1024)%Z ->
  startsWith (lit "video/") (type file) = true ->
  handleFileSelect (file :: others) prev = (set_videoFile file prev, Some file).
Proof.
  intros Hsize Htype. unfold handleFileSelect.
  destruct (size file >? MAX_FILE_SIZE_BYTES)%Z eqn:Hgt.
  - rewrite Z.gtb_ltb in Hgt. apply Z.ltb_lt in Hgt.
    unfold MAX_FILE_SIZE_BYTES, MAX_FILE_SIZE_MB in Hgt. lia.
  - now rewrite Htype.
Qed.

(** C1.  On the upload step, a file whose size exceeds 200 MB or whose type
    does not begin with "video/" is refused by the file input and by the
    drop zone alike: the step is still UPLOAD, an error message is set, no
    other field of the state changes and no encoding is started. *)
Theorem upload_guard_rejects :
  forall c file others e,
    step (ui c) = UPLOAD ->
    (size file > 200 * 1024 * 1024)%Z \/
    startsWith (lit "video/") (type file) = false ->
    e = FileSelected (file :: others) \/ e = FileDropped (file :: others) ->
    exists c' message,
      fire c e = Some c'
      /\ step (ui c') = UPLOAD
      /\ error (ui c') = Some message
      /\ videoFile (ui c') = videoFile (ui c)
      /\ videoBase64 (ui c') = videoBase64 (ui c)
      /\ transcript (ui c') = transcript (ui c)
      /\ generatedSrt (ui c') = generatedSrt (ui c)
      /\ encoding c' = encoding c
      /\ aligning c' = aligning c.
Proof.
  intros c file others e Hstep Hbad He.
  destruct (handleFileSelect_rejects file others (ui c) Hbad) as [message Hrej].
  exists {| ui := set_error (Some message) (ui c);
            encoding := encoding c; aligning := aligning c;
            saved := saved c |}, message.
  split.
  - destruct He as [-> | ->]; unfold fire, offered; rewrite Hstep; cbn [AppStep_eqb negb];
      rewrite ?handleDrop_handleFileSelect, Hrej; cbn [opt_list];
      now rewrite app_nil_r.
  - cbn. now rewrite Hstep.
Qed.

Lemma upload_guard_rejects_witness :
  exists c' message,
    fire start (FileDropped [oversized]) = Some c'
    /\ step (ui c') = UPLOAD
    /\ error (ui c') = Some message
    /\ videoFile (ui c') = videoFile (ui start)
    /\ videoBase64 (ui c') = videoBase64 (ui start)
    /\ transcript (ui c') = transcript (ui start)
    /\ generatedSrt (ui c') = generatedSrt (ui start)
    /\ encoding c' = encoding start
    /\ aligning c' = aligning start.
Proof.
  apply (upload_guard_rejects start oversized []).
  - reflexivity.
  - left. reflexivity.
  - right. reflexivity.
Defined.

(** C5, as the code has it.  When a file passes the guard of the upload
    step and its encoding then fails, the step is still UPLOAD, the error
    message is "Failed to process video file.", the encoded video, the
    transcript and the result are unchanged, and the video handle is the
    file of the failed attempt, stored when the guard passed. *)
Theorem failed_encoding_keeps_step_and_handle :
  forall c file others e,
    step (ui c) = UPLOAD ->
    (size file <= 200 * 1024 * 1024)%Z ->
    startsWith (lit "video/") (type file) = true ->
    e = FileSelected (file :: others) \/ e = FileDropped (file :: others) ->
    run c [e; EncodingRejected (List.length (encoding c))]
    = Some {| ui := {| step := UPLOAD;
                       videoFile := Some file;
                       videoBase64 := videoBase64 (ui c);
                       transcript := transcript (ui c);
                       generatedSrt := generatedSrt (ui c);
                       error := Some (lit "Failed to process video file.") |};
              encoding := encoding c;
              aligning := aligning c; saved := saved c |}.
Proof.
  intros c file others e Hstep Hsize Htype He.
  pose proof (handleFileSelect_accepts file others (ui c) Hsize Htype) as Hacc.
  assert (Hfire : fire c e
                  = Some {| ui := set_videoFile file (ui c);
                            encoding := encoding c ++ [file];
                            aligning := aligning c;
                  saved := saved c |}).
  { destruct He as [-> | ->]; unfold fire, offered; rewrite Hstep;
      cbn [AppStep_eqb negb]; now rewrite ?handleDrop_handleFileSelect, Hacc. }
  cbn [run]. rewrite Hfire.
  unfold fire. cbn [offered negb ui encoding aligning].
  rewrite nth_error_snoc, remove_nth_snoc.
  unfold not_encoded, set_error, set_videoFile. cbn. now rewrite Hstep.
Qed.

Lemma failed_encoding_keeps_step_and_handle_witness :
  run start [FileSelected [clip]; EncodingRejected 0]
  = Some {| ui := {| step := UPLOAD;
                     videoFile := Some clip;
                     videoBase64 := None;
                     transcript := [];
                     generatedSrt := [];
                     error := Some (lit "Failed to process video file.") |};
            encoding := [];
            aligning := []; saved := [] |}.
Proof.
  apply (failed_encoding_keeps_step_and_handle start clip []).
  - reflexivity.
  - discriminate.
  - reflexivity.
  - left. reflexivity.
Defined.

(** C5 as stated fails: after a failed encoding the video handle of the
    state is the file of the failed attempt, where it was absent before. *)
Lemma failed_encoding_retains_videoFile :
  exists c',
    run start [FileSelected [clip]; EncodingRejected 0] = Some c'
    /\ step (ui c') = UPLOAD
    /\ videoFile (ui start) = None
    /\ videoFile (ui c') = Some clip.
Proof.
  eexists. split; [reflexivity|]. repeat split.
Qed.

Lemma or_else_nonempty (o : option jsstring) (d : jsstring) :
  d <> [] -> or_else o d <> [].
Proof.
  intros Hd. destruct o as [[|c s]|]; cbn; try assumption. discriminate.
Qed.

(** An error thrown by [generateSrtFromVideo] has a message that is not
    empty. *)
Lemma generateSrtFromVideo_message API_KEY generateContent videoBase64 mimeType
      transcript message :
  snd (generateSrtFromVideo API_KEY generateContent videoBase64 mimeType transcript)
  = Thrown message ->
  message <> [].
Proof.
  unfold generateSrtFromVideo.
  destruct (negb (truthy API_KEY)); cbn [snd].
  - intros [= <-]. discriminate.
  - destruct (generateContent _) as [[[|c rest]|]|msg];
      intros [= <-]; try discriminate.
    apply or_else_nonempty. discriminate.
Qed.

Lemma errorMessage_of_thrown (state : ProcessingState) (file : File)
      (message : jsstring) :
  videoFile state = Some file -> message <> [] ->
  errorMessage state message
  = if (size file >? 20 * 1024 * 1024)%Z && includes (lit "400") message
    then message ++ size_hint else message.
Proof.
  intros Hfile Hne. unfold errorMessage. rewrite Hfile.
  destruct message as [|c m]; [congruence | reflexivity].
Qed.

(** C6.  When the alignment call fails, the step becomes ERROR and the
    stored message is the message of the failure, followed by the size hint
    exactly when the message contains "400" and the selected file is
    larger than 20 * 1024 * 1024 bytes. *)
Theorem failed_call_stores_message_with_size_hint :
  forall c i state file API_KEY generateContent message,
    nth_error (aligning c) i = Some state ->
    videoFile state = Some file ->
    snd (call API_KEY generateContent state) = Thrown message ->
    exists c',
      fire c (CallEnded i API_KEY generateContent) = Some c'
      /\ step (ui c') = ERROR
      /\ error (ui c')
         = Some (if (size file >? 20 * 1024 * 1024)%Z
                    && includes (lit "400") message
                 then message ++ size_hint else message).
Proof.
  intros c i state file API_KEY generateContent message Hnth Hfile Hcall.
  unfold fire. cbn [offered negb]. rewrite Hnth, Hcall. cbn [generated].
  eexists. split; [reflexivity|]. cbn [ui step error set_failed].
  split; [reflexivity|]. f_equal.
  apply errorMessage_of_thrown; [assumption|].
  exact (generateSrtFromVideo_message _ _ _ _ _ _ Hcall).
Qed.

Lemma failed_call_stores_message_with_size_hint_witness :
  exists c',
    fire {| ui := set_processing ready; encoding := []; aligning := [ready];
            saved := [] |}
         (CallEnded 0 (Some (lit "key")) refusing) = Some c'
    /\ step (ui c') = ERROR
    /\ error (ui c') = Some (lit "400 Bad Request" ++ size_hint).
Proof.
  apply (failed_call_stores_message_with_size_hint
           {| ui := set_processing ready; encoding := []; aligning := [ready];
            saved := [] |}
           0 ready feature (Some (lit "key")) refusing (lit "400 Bad Request"));
    reflexivity.
Defined.

(** C7.  Try Again on the error step sets the step to TRANSCRIPT and the
    error to null and leaves the video handle, the encoded video, the
    transcript and the result as they are; and these four are, after a
    failed attempt and Try Again, what they were before the attempt. *)
Theorem retry_changes_step_and_error_only :
  (forall c,
      step (ui c) = ERROR ->
      fire c RetryClicked
      = Some {| ui := {| step := TRANSCRIPT;
                         videoFile := videoFile (ui c);
                         videoBase64 := videoBase64 (ui c);
                         transcript := transcript (ui c);
                         generatedSrt := generatedSrt (ui c);
                         error := None |};
                encoding := encoding c;
                aligning := aligning c; saved := saved c |})
  /\ (forall s pending API_KEY generateContent message,
         step s = TRANSCRIPT ->
         snd (handleGenerate s) = Some s ->
         snd (call API_KEY generateContent s) = Thrown message ->
         run {| ui := s; encoding := pending; aligning := []; saved := [] |}
             [GenerateClicked; CallEnded 0 API_KEY generateContent; RetryClicked]
         = Some {| ui := {| step := TRANSCRIPT;
                            videoFile := videoFile s;
                            videoBase64 := videoBase64 s;
                            transcript := transcript s;
                            generatedSrt := generatedSrt s;
                            error := None |};
                   encoding := pending;
                   aligning := []; saved := [] |}).
Proof.
  split.
  - intros c Hstep. unfold fire, offered. now rewrite Hstep.
  - intros s pending API_KEY generateContent message Hstep Hgen Hcall.
    assert (Hguard : handleGenerate s = (set_processing s, Some s)).
    { unfold handleGenerate in *.
      destruct (_ || _ || _); [discriminate Hgen | reflexivity]. }
    assert (Hblank : match trim (transcript s) with
                     | [] => false | _ :: _ => true end = true).
    { unfold handleGenerate in Hgen.
      destruct (trim (transcript s)); [|reflexivity].
      rewrite !orb_true_r in Hgen. discriminate Hgen. }
    cbn [run]. unfold fire at 1. cbn [ui offered].
    rewrite Hstep, Hblank, Hguard. cbn [AppStep_eqb andb negb opt_list app].
    unfold fire at 1. cbn [offered negb aligning nth_error ui encoding].
    cbn [app]. rewrite Hcall. cbn [generated remove_nth].
    reflexivity.
Qed.

Lemma retry_changes_step_and_error_only_witness :
  run {| ui := ready; encoding := []; aligning := []; saved := [] |}
      [GenerateClicked; CallEnded 0 (Some (lit "key")) refusing; RetryClicked]
  = Some {| ui := ready; encoding := []; aligning := []; saved := [] |}.
Proof.
  apply (proj2 retry_changes_step_and_error_only
               ready [] (Some (lit "key")) refusing (lit "400 Bad Request"));
    reflexivity.
Defined.

(** C4 fails on the code.  The end of an encoding sets the step to
    TRANSCRIPT whatever the step is.  After [first_call] the step is
    PROCESSING and one alignment call is pending; [late_encoding] sets the
    step to TRANSCRIPT, neither RESULT nor ERROR, with the call still
    pending; Generate is offered again, and clicking it makes a second call
    while the first has not ended. *)
Theorem second_call_while_first_pending :
  exists c0 c1 c2 first second,
    run start first_call = Some c0
    /\ step (ui c0) = PROCESSING
    /\ aligning c0 = [first]
    /\ fire c0 late_encoding = Some c1
    /\ step (ui c1) = TRANSCRIPT
    /\ aligning c1 = [first]
    /\ fire c1 GenerateClicked = Some c2
    /\ step (ui c2) = PROCESSING
    /\ aligning c2 = [first; second].
Proof.
  do 5 eexists.
  split; [vm_compute; reflexivity|]. split; [reflexivity|].
  split; [reflexivity|].
  split; [vm_compute; reflexivity|]. split; [reflexivity|].
  split; [reflexivity|].
  split; [vm_compute; reflexivity|]. split; reflexivity.
Qed.

(** In a serial configuration with a call pending the step is PROCESSING,
    on which no control is offered. *)
Ltac no_call_pending al Hser Hoff :=
  destruct al as [|? [|]];
  [ | destruct Hser as [Hser _]; rewrite Hser in Hoff; discriminate Hoff
    | contradiction ].

(** With no call pending, an encoding is pending on the upload step only. *)
Ltac no_encoding_pending enc Hser Hoff :=
  destruct enc as [|? [|]];
  [ | rewrite Hser in Hoff; discriminate Hoff | contradiction ].

Lemma serial_handleFileSelect (files : list File) (s : ProcessingState) :
  step s = UPLOAD ->
  match snd (handleFileSelect files s) with
  | Some _ => step (fst (handleFileSelect files s)) = UPLOAD
  | None => True
  end.
Proof.
  intros Hstep. unfold handleFileSelect.
  destruct files as [|file files]; [exact I|].
  destruct (size file >? MAX_FILE_SIZE_BYTES)%Z; [exact I|].
  destruct (negb _); [exact I | exact Hstep].
Qed.

Lemma serial_fire (c c' : Config) (e : Event) :
  serial c -> overlapping c e = false -> fire c e = Some c' -> serial c'.
Proof.
  unfold serial, fire.
  destruct c as [s enc al sv]; cbn [ui encoding aligning saved].
  intros Hser Hover.
  destruct (offered s e) eqn:Hoff; cbn [negb]; [|discriminate].
  destruct e; cbn [offered overlapping encoding] in Hoff, Hover.
  - (* FileSelected *)
    destruct enc; [|discriminate Hover].
    no_call_pending al Hser Hoff.
    assert (Hup : step s = UPLOAD) by (destruct (step s); now try discriminate Hoff).
    pose proof (serial_handleFileSelect files s Hup) as Hsel.
    destruct (handleFileSelect files s) as [s' [file|]];
      intros [= <-]; [exact Hsel | exact I].
  - (* FileDropped *)
    destruct enc; [|discriminate Hover].
    no_call_pending al Hser Hoff.
    assert (Hup : step s = UPLOAD) by (destruct (step s); now try discriminate Hoff).
    pose proof (serial_handleFileSelect files s Hup) as Hsel.
    rewrite handleDrop_handleFileSelect.
    destruct (handleFileSelect files s) as [s' [file|]];
      intros [= <-]; [exact Hsel | exact I].
  - (* EncodingResolved *)
    destruct al as [|a [|]];
      [ | destruct Hser as [_ ->]; destruct i; discriminate | contradiction ].
    destruct enc as [|f [|]]; [destruct i; discriminate | | contradiction].
    destruct i as [|[|]]; intros [= <-]; exact I.
  - (* EncodingRejected *)
    destruct al as [|a [|]];
      [ | destruct Hser as [_ ->]; destruct i; discriminate | contradiction ].
    destruct enc as [|f [|]]; [destruct i; discriminate | | contradiction].
    destruct i as [|[|]]; intros [= <-]; exact I.
  - (* TranscriptEdited *)
    no_call_pending al Hser Hoff. no_encoding_pending enc Hser Hoff.
    intros [= <-]; exact I.
  - (* GenerateClicked *)
    no_call_pending al Hser Hoff. no_encoding_pending enc Hser Hoff.
    unfold handleGenerate. destruct (_ || _ || _); intros [= <-]; cbn; auto.
  - (* CallEnded *)
    destruct al as [|a [|]]; [destruct i; discriminate | | contradiction].
    destruct Hser as [_ ->].
    destruct i as [|[|]]; intros [= <-]; exact I.
  - (* ResetClicked *)
    no_call_pending al Hser Hoff. no_encoding_pending enc Hser Hoff.
    intros [= <-]; exact I.
  - (* DownloadClicked *)
    intros [= <-]. exact Hser.
  - (* RetryClicked *)
    no_call_pending al Hser Hoff. no_encoding_pending enc Hser Hoff.
    intros [= <-]; exact I.
Qed.

(** X20.  As long as no file is offered while an encoding is pending, the calls
    are made one after the other: in every configuration reached at most
    one call is pending, and Generate is not offered while one is. *)
Theorem calls_serial_when_uploads_are_apart :
  forall events c',
    apart start events = true ->
    run start events = Some c' ->
    (List.length (aligning c') <= 1)%nat
    /\ (aligning c' <> [] ->
        step (ui c') = PROCESSING /\ fire c' GenerateClicked = None).
Proof.
  assert (Hrun : forall events c c',
             serial c -> apart c events = true ->
             run c events = Some c' -> serial c').
  { induction events as [|e events IH]; intros c c' Hser Hap Hrun.
    - now injection Hrun as <-.
    - cbn [apart run] in Hap, Hrun.
      apply andb_prop in Hap as [Hover Hap].
      apply negb_true_iff in Hover.
      destruct (fire c e) as [c1|] eqn:Hfire; [|discriminate].
      exact (IH c1 c' (serial_fire c c1 e Hser Hover Hfire) Hap Hrun). }
  intros events c' Hap Hreach.
  assert (Hser : serial c') by (apply (Hrun events start c'); [exact I | assumption..]).
  unfold serial in Hser.
  destruct (aligning c') as [|a [|]]; cbn [List.length].
  - split; [lia | congruence].
  - destruct Hser as [Hp _]. split; [lia|]. intros _. split; [assumption|].
    unfold fire, offered. now rewrite Hp.
  - contradiction.
Qed.

Lemma calls_serial_when_uploads_are_apart_witness :
  exists c',
    run start [FileSelected [clip]; EncodingResolved 0 (lit "data:video/mp4;base64,AAAA");
               TranscriptEdited (lit "Hello world"); GenerateClicked] = Some c'
    /\ (List.length (aligning c') <= 1)%nat
    /\ (aligning c' <> [] ->
        step (ui c') = PROCESSING /\ fire c' GenerateClicked = None).
Proof.
  eexists. split; [vm_compute; reflexivity|].
  apply (calls_serial_when_uploads_are_apart
           [FileSelected [clip]; EncodingResolved 0 (lit "data:video/mp4;base64,AAAA");
            TranscriptEdited (lit "Hello world"); GenerateClicked]);
    vm_compute; reflexivity.
Defined.

(** ** Further properties of the encoding helpers *)

Lemma split_no_separator (sep : code_unit) (s : jsstring) :
  ~ In sep s -> split sep s = [s].
Proof.
  induction s as [|c s IH]; cbn [split]; intros Hno; [reflexivity|].
  destruct (N.eqb_spec c sep) as [-> | _].
  - exfalso. apply Hno. now left.
  - rewrite IH; [reflexivity|]. intros Hin. apply Hno. now right.
Qed.

Lemma split_at_separator (sep : code_unit) (h t : jsstring) :
  ~ In sep h -> split sep (h ++ sep :: t) = h :: split sep t.
Proof.
  induction h as [|c h IH]; cbn [app split]; intros Hno.
  - now rewrite N.eqb_refl.
  - destruct (N.eqb_spec c sep) as [-> | _].
    + exfalso. apply Hno. now left.
    + rewrite IH; [reflexivity|]. intros Hin. apply Hno. now right.
Qed.

Lemma split_two_pieces (sep : code_unit) (s : jsstring) :
  In sep s -> exists a b rest, split sep s = a :: b :: rest.
Proof.
  induction s as [|c s IH]; cbn [split]; intros Hin; [destruct Hin|].
  destruct (N.eqb_spec c sep) as [-> | Hne].
  - destruct (split sep s) as [|b rest] eqn:Hs.
    + destruct s; cbn in Hs; [discriminate|].
      destruct (_ =? _); [discriminate|]. destruct (split sep s); discriminate.
    + now exists [], b, rest.
  - destruct Hin as [-> | Hin]; [congruence|].
    destruct (IH Hin) as (a & b & rest & ->). now exists (c :: a), b, rest.
Qed.

(** X3.  [fileToBase64] gives what follows the first comma of the data URL,
    the payload of a URL with one comma, and is undefined exactly when the
    result of the reader has no comma. *)
Theorem fileToBase64_payload :
  (forall header payload,
      ~ In 44 header -> ~ In 44 payload ->
      fileToBase64 (header ++ lit "," ++ payload) = Some payload)
  /\ (forall result, fileToBase64 result = None <-> ~ In 44 result).
Proof.
  split.
  - intros header payload Hh Hp. unfold fileToBase64.
    change (lit "," ++ payload) with (44 :: payload).
    now rewrite split_at_separator, split_no_separator.
  - intros result. unfold fileToBase64. split.
    + intros Hnone Hin.
      destruct (split_two_pieces 44 result Hin) as (a & b & rest & Hs).
      rewrite Hs in Hnone. discriminate.
    + intros Hno. now rewrite split_no_separator.
Qed.

Lemma fileToBase64_payload_witness :
  fileToBase64 (lit "data:video/mp4;base64" ++ lit "," ++ lit "AAAA")
  = Some (lit "AAAA").
Proof.
  apply (proj1 fileToBase64_payload);
    cbn; intros H; repeat (destruct H as [H | H]; [discriminate H|]); exact H.
Defined.

(** X4.  The name [downloadSrt] gives is left as it is when it is given back
    as the suggested name: an ".srt" extension is replaced by itself. *)
Theorem downloadSrt_name_idempotent :
  forall content content' filename,
    download (downloadSrt content' (download (downloadSrt content filename)))
    = download (downloadSrt content filename).
Proof.
  intros content content' filename. unfold downloadSrt; cbn [download].
  f_equal. change (lit ".srt") with (46 :: lit "srt").
  now apply strip_ext_app.
Qed.

Lemma unit_index_from_tebibyte (bytes : Z) :
  (2 ^ 40 <= bytes)%Z -> sizes_at (unit_index bytes) = lit "undefined".
Proof.
  intros Hb. unfold unit_index.
  assert (Hpos : (0 < bytes)%Z)
    by (apply Z.lt_le_trans with (2 ^ 40)%Z; [reflexivity | exact Hb]).
  assert (Hl : (40 <= Z.log2 bytes)%Z) by (apply Z.log2_le_pow2; assumption).
  remember (Z.log2 bytes) as l eqn:El. clear El.
  assert (Hi : (4 <= l / 10)%Z).
  { pose proof (Z.div_mod l 10 ltac:(lia)).
    pose proof (Z.mod_pos_bound l 10 ltac:(lia)). lia. }
  unfold sizes_at. destruct (Z.ltb_spec (l / 10) 0); [lia|].
  apply nth_overflow. cbn [List.length sizes]. lia.
Qed.

Lemma endsWith_undefined (before u : jsstring) :
  In u sizes -> endsWith u (before ++ lit "undefined") = false.
Proof.
  intros Hu. unfold endsWith. rewrite rev_app_distr.
  destruct Hu as [<- | [<- | [<- | [<- | []]]]]; reflexivity.
Qed.

Lemma formatFileSize_ends_with_unit (bytes : Z) :
  (1 <= bytes < 2 ^ 40)%Z ->
  exists u, In u sizes /\ endsWith u (formatFileSize bytes) = true.
Proof.
  intros Hb.
  destruct (unit_index_bounds bytes Hb) as [Hi _].
  assert (Hcase : unit_index bytes = 0%Z \/ unit_index bytes = 1%Z \/
                  unit_index bytes = 2%Z \/ unit_index bytes = 3%Z) by lia.
  exists (sizes_at (unit_index bytes)). split.
  - destruct Hcase as [-> | [-> | [-> | ->]]]; cbn; auto.
  - unfold formatFileSize.
    destruct (Z.eqb_spec bytes 0); [lia|].
    destruct (Z.ltb_spec bytes 0); [lia|].
    rewrite app_assoc. apply endsWith_app.
Qed.

(** X2.  For a byte count of at least 1, the text of [formatFileSize] ends
    with a unit of the table exactly when the count is below [2^40]; from
    there on it ends with "undefined". *)
Theorem formatFileSize_unit_iff :
  forall bytes,
    (1 <= bytes)%Z ->
    ((exists u, In u sizes /\ endsWith u (formatFileSize bytes) = true)
     <-> (bytes < 2 ^ 40)%Z).
Proof.
  intros bytes Hb.
  assert (Hf : formatFileSize bytes
               = number_text (toFixed2 bytes (unit_index bytes)) ++ lit " "
                 ++ sizes_at (unit_index bytes)).
  { unfold formatFileSize.
    destruct (Z.eqb_spec bytes 0); [lia|].
    destruct (Z.ltb_spec bytes 0); [lia | reflexivity]. }
  split.
  - intros (u & Hu & Hend).
    destruct (Z.lt_ge_cases bytes (2 ^ 40)) as [Hlt | Hge]; [exact Hlt|].
    rewrite Hf, (unit_index_from_tebibyte bytes Hge), app_assoc in Hend.
    rewrite (endsWith_undefined _ u Hu) in Hend. discriminate.
  - intros Hlt. apply formatFileSize_ends_with_unit. now split.
Qed.

Lemma formatFileSize_unit_iff_witness :
  (exists u, In u sizes /\ endsWith u (formatFileSize 1536) = true)
  <-> (1536 < 2 ^ 40)%Z.
Proof.
  apply formatFileSize_unit_iff. lia.
Defined.

(** ** Further properties of the alignment client *)

(** X5.  A response that neither begins nor ends with a fence is returned
    trimmed and otherwise as it is. *)
Theorem cleanedText_unfenced :
  forall text,
    startsWith (lit "```") text = false ->
    endsWith (lit "```") text = false ->
    cleanedText text = trim text.
Proof.
  intros text Hstart Hend. unfold cleanedText.
  rewrite (strip_leading_unfenced text Hstart).
  unfold strip_trailing_fence. now rewrite Hend.
Qed.

Lemma cleanedText_unfenced_witness :
  cleanedText (nl ++ lit "ERROR: No speech detected" ++ nl)
  = trim (nl ++ lit "ERROR: No speech detected" ++ nl).
Proof.
  apply cleanedText_unfenced; reflexivity.
Defined.

Lemma part_of_refl (s : jsstring) : part_of s s.
Proof. exists [], []. now rewrite app_nil_r. Qed.

Lemma part_of_trans (a b c : jsstring) :
  part_of a b -> part_of b c -> part_of a c.
Proof.
  intros (p1 & q1 & ->) (p2 & q2 & ->).
  exists (p2 ++ p1), (q1 ++ q2). now rewrite !app_assoc.
Qed.

Lemma part_of_suffix (before s : jsstring) : part_of s (before ++ s).
Proof. exists before, []. now rewrite app_nil_r. Qed.

Lemma part_of_prefix (s after : jsstring) : part_of s (s ++ after).
Proof. now exists [], after. Qed.

Lemma trimStart_suffix (s : jsstring) : exists before, s = before ++ trimStart s.
Proof.
  induction s as [|c s [before IH]]; cbn [trimStart]; [now exists []|].
  destruct (is_space c); [|now exists []].
  exists (c :: before). cbn [app]. now rewrite <- IH.
Qed.

Lemma trimEnd_prefix (s : jsstring) : exists after, s = trimEnd s ++ after.
Proof.
  unfold trimEnd. destruct (trimStart_suffix (rev s)) as [before H].
  exists (rev before).
  rewrite <- rev_app_distr, <- H. now rewrite rev_involutive.
Qed.

Lemma part_of_trim (s : jsstring) : part_of (trim s) s.
Proof.
  unfold trim.
  destruct (trimStart_suffix s) as [before Hs].
  destruct (trimEnd_prefix (trimStart s)) as [after He].
  apply part_of_trans with (trimStart s).
  - rewrite He at 2. apply part_of_prefix.
  - rewrite Hs at 2. apply part_of_suffix.
Qed.

Lemma match_prefix_ci_suffix (p s rest : jsstring) :
  match_prefix_ci p s = Some rest -> exists before, s = before ++ rest.
Proof.
  revert s. induction p as [|a p IH]; intros s; cbn [match_prefix_ci].
  - intros [= ->]. now exists [].
  - destruct s as [|b s]; [discriminate|].
    destruct (upper a =? upper b); [|discriminate].
    intros H. destruct (IH s H) as [before ->]. now exists (b :: before).
Qed.

Lemma part_of_strip_leading (p s : jsstring) : part_of (strip_leading p s) s.
Proof.
  unfold strip_leading.
  destruct (match_prefix_ci p s) as [rest|] eqn:Hm; [|apply part_of_refl].
  destruct (match_prefix_ci_suffix p s rest Hm) as [before ->].
  destruct (trimStart_suffix rest) as [spaces Hr].
  apply part_of_trans with rest; [|apply part_of_suffix].
  rewrite Hr at 2. apply part_of_suffix.
Qed.

Lemma part_of_strip_trailing_fence (s : jsstring) :
  part_of (strip_trailing_fence s) s.
Proof.
  unfold strip_trailing_fence.
  destruct (endsWith (lit "```") s); [|apply part_of_refl].
  exists [], (skipn (List.length s - 3) s).
  cbn [app]. symmetry. apply firstn_skipn.
Qed.

(** X6.  The text returned is a run of consecutive characters of the
    response: the cleaning only removes characters at the two ends. *)
Theorem cleanedText_part_of_response :
  forall text, part_of (cleanedText text) text.
Proof.
  intros text. unfold cleanedText.
  eapply part_of_trans; [apply part_of_trim|].
  eapply part_of_trans; [apply part_of_strip_trailing_fence|].
  eapply part_of_trans; apply part_of_strip_leading.
Qed.

Lemma truthy_cons (o : option jsstring) :
  truthy o = true -> exists c s, o = Some (c :: s).
Proof.
  destruct o as [[|c s]|]; try discriminate. intros _. now exists c, s.
Qed.

(** X7.  With a credential, [generateSrtFromVideo] sends one request and no
    more, which carries the video, its type and the prompt with the
    transcript.  It resolves exactly when the service answers with a text
    that is not empty, with that text cleaned; an answer without text
    gives the empty-response error, and a failure of the service its own
    message, or the generic one when it has none. *)
Theorem generateSrtFromVideo_with_key :
  forall API_KEY generateContent videoBase64 mimeType transcript,
    truthy API_KEY = true ->
    let request :=
      {| model := lit "gemini-2.5-flash";
         inline_mimeType := mimeType;
         inline_data := videoBase64;
         text := prompt transcript |} in
    let result :=
      generateSrtFromVideo API_KEY generateContent
        videoBase64 mimeType transcript in
    fst result = [request]
    /\ (forall srt,
           snd result = Resolved srt <->
           exists answer,
             answer <> [] /\ generateContent request = Responded (Some answer)
             /\ srt = cleanedText answer)
    /\ (forall answer,
           generateContent request = Responded answer -> truthy answer = false ->
           snd result = Thrown (lit "Gemini returned an empty response."))
    /\ (forall message,
           generateContent request = Rejected message ->
           snd result
           = Thrown (or_else message (lit "Failed to generate subtitles."))).
Proof.
  intros API_KEY generateContent videoBase64 mimeType transcript Hkey
         request result.
  subst result. unfold generateSrtFromVideo. rewrite Hkey. cbn [negb fst snd].
  fold request.
  split; [reflexivity|]. split; [|split].
  - intros srt. split.
    + destruct (generateContent request) as [[[|c answer]|]|message];
        try discriminate.
      intros [= <-]. exists (c :: answer). repeat split. discriminate.
    + intros (answer & Hne & -> & ->).
      destruct answer as [|c answer]; [congruence | reflexivity].
  - intros answer -> Hfalsy.
    destruct answer as [[|c answer]|]; try discriminate; reflexivity.
  - intros message ->. reflexivity.
Qed.

Lemma generateSrtFromVideo_with_key_witness :
  fst (generateSrtFromVideo (Some (lit "key")) refusing
         (lit "AAAA") (lit "video/mp4") (lit "Hello world"))
  = [{| model := lit "gemini-2.5-flash";
        inline_mimeType := lit "video/mp4";
        inline_data := lit "AAAA";
        text := prompt (lit "Hello world") |}].
Proof.
  apply (generateSrtFromVideo_with_key (Some (lit "key")) refusing
           (lit "AAAA") (lit "video/mp4") (lit "Hello world")).
  reflexivity.
Defined.

(** ** Further properties of the workflow *)

Lemma handleGenerate_cases (state : ProcessingState) :
  (callable state /\ handleGenerate state = (set_processing state, Some state)
   /\ truthy (videoBase64 state) = true
   /\ (exists file, videoFile state = Some file)
   /\ trim (transcript state) <> [])
  \/ (~ callable state
      /\ handleGenerate state
         = (set_error (Some (lit "Please provide both a video and a transcript."))
                      state, None)
      /\ (truthy (videoBase64 state) = false \/ videoFile state = None
          \/ trim (transcript state) = [])).
Proof.
  unfold callable, handleGenerate.
  destruct (truthy (videoBase64 state)); cbn [negb orb].
  - destruct (videoFile state) as [file|]; cbn [orb].
    + destruct (trim (transcript state)) as [|c t].
      * right. repeat split; auto. discriminate.
      * left. repeat split; try discriminate. now exists file.
    + right. repeat split; auto. discriminate.
  - right. repeat split; auto. discriminate.
Qed.

(** X8.  [handleGenerate] makes the call exactly when the encoded video is
    not empty, a file is held and the transcript has a character that is
    not white space; when it does not, it only sets the message asking for
    both inputs. *)
Theorem handleGenerate_calls_iff :
  forall state,
    (callable state <->
     truthy (videoBase64 state) = true
     /\ videoFile state <> None
     /\ exists c, In c (transcript state) /\ is_space c = false)
    /\ (callable state ->
        handleGenerate state = (set_processing state, Some state))
    /\ (~ callable state ->
        handleGenerate state
        = (set_error (Some (lit "Please provide both a video and a transcript."))
                     state, None)).
Proof.
  intros state.
  assert (Hblank : trim (transcript state) = [] <->
                   ~ exists c, In c (transcript state) /\ is_space c = false).
  { rewrite trim_nil_iff, forallb_forall. split.
    - intros Hall (c & Hin & Hc). rewrite (Hall c Hin) in Hc. discriminate.
    - intros Hnone c Hin. destruct (is_space c) eqn:Hc; [reflexivity|].
      exfalso. apply Hnone. now exists c. }
  destruct (handleGenerate_cases state)
    as [(Hcall & Heq & Hb & (file & Hfile) & Ht)
       | (Hno & Heq & Hwhy)].
  - split; [|split; [auto | contradiction]].
    split; [|auto]. intros _. split; [exact Hb|]. split; [congruence|].
    destruct (forallb is_space (transcript state)) eqn:Hall.
    + apply trim_nil_iff in Hall. contradiction.
    + apply not_true_iff_false in Hall. rewrite forallb_forall in Hall.
      destruct (existsb (fun c => negb (is_space c)) (transcript state)) eqn:Hex.
      * apply existsb_exists in Hex as (c & Hin & Hc).
        exists c. split; [exact Hin|]. now apply negb_true_iff.
      * exfalso. apply Hall. intros c Hin.
        destruct (is_space c) eqn:Hc; [reflexivity|].
        assert (Hsome : existsb (fun c => negb (is_space c)) (transcript state) = true)
          by (apply existsb_exists; exists c; now rewrite Hc).
        congruence.
  - split; [|split; [contradiction | auto]].
    split; [contradiction|].
    intros (Hb & Hfile & Hc). exfalso.
    destruct Hwhy as [Hb' | [Hfile' | Ht]];
      [congruence | contradiction | now apply Hblank in Ht].
Qed.

Lemma handleGenerate_calls_iff_witness :
  handleGenerate ready = (set_processing ready, Some ready).
Proof.
  apply (handleGenerate_calls_iff ready). reflexivity.
Defined.

Lemma AppStep_eqb_eq (a b : AppStep) : AppStep_eqb a b = true <-> a = b.
Proof.
  destruct a, b; cbn; split; intros H; try reflexivity; discriminate H.
Qed.

Lemma Forall_remove_nth {A : Type} (P : A -> Prop) (i : nat) (l : list A) :
  Forall P l -> Forall P (remove_nth i l).
Proof.
  intros H. revert i. induction H as [|x l Hx Hl IH]; intros i.
  - destruct i; constructor.
  - destruct i as [|i]; cbn [remove_nth]; [exact Hl|].
    constructor; [exact Hx | apply IH].
Qed.

Lemma handleFileSelect_cases (files : list File) (s : ProcessingState) :
  handleFileSelect files s = (s, None)
  \/ (exists message,
         message <> []
         /\ handleFileSelect files s = (set_error (Some message) s, None))
  \/ (exists file others,
         files = file :: others /\ accepted file
         /\ handleFileSelect files s = (set_videoFile file s, Some file)).
Proof.
  unfold handleFileSelect, accepted.
  destruct files as [|file others]; [now left|]. right.
  destruct (size file >? MAX_FILE_SIZE_BYTES)%Z eqn:Hsize.
  - left. exists too_large. split; [discriminate | reflexivity].
  - destruct (startsWith (lit "video/") (type file)) eqn:Htype; cbn [negb].
    + right. exists file, others.
      split; [reflexivity|]. split; [|now rewrite ?Htype].
      split; [|exact Htype].
      rewrite Z.gtb_ltb in Hsize. now apply Z.ltb_ge in Hsize.
    + left. exists not_a_video. split; [discriminate | reflexivity].
Qed.

Lemma errorMessage_nonempty (state : ProcessingState) (message : jsstring) :
  errorMessage state message <> [].
Proof.
  unfold errorMessage.
  assert (H : or_else (Some message)
                (lit "An error occurred while communicating with AI.") <> [])
    by (apply or_else_nonempty; discriminate).
  destruct (or_else _ _) as [|c m]; [congruence|].
  destruct (videoFile state) as [file|]; [|discriminate].
  destruct (_ && _); discriminate.
Qed.

Lemma call_resolved_trimmed API_KEY generateContent (state : ProcessingState)
      (srt : jsstring) :
  snd (call API_KEY generateContent state) = Resolved srt -> trim srt = srt.
Proof.
  unfold call, generateSrtFromVideo.
  destruct (negb (truthy API_KEY)); cbn [snd]; [discriminate|].
  destruct (generateContent _) as [[[|c answer]|]|message]; try discriminate.
  intros [= <-]. unfold cleanedText. apply trim_idem.
Qed.

Lemma sound_start : sound start.
Proof.
  constructor; cbn; try constructor; try discriminate.
Qed.

Lemma sound_fire (c c' : Config) (e : Event) :
  sound c -> fire c e = Some c' -> sound c'.
Proof.
  intros [Hfile Henc Hal Herr Hsrt Hsaved]. unfold fire.
  destruct (offered (ui c) e) eqn:Hoff; cbn [negb]; [|discriminate].
  destruct e; cbn [offered] in Hoff.
  - (* FileSelected *)
    apply AppStep_eqb_eq in Hoff.
    destruct (handleFileSelect_cases files (ui c))
      as [-> | [(message & Hm & ->) | (file & others & _ & Hacc & ->)]];
      intros [= <-]; constructor; cbn; rewrite ?app_nil_r; auto;
      try (rewrite Hoff; discriminate).
    + intros f [= <-]. exact Hacc.
    + apply Forall_app. split; [exact Henc|]. now constructor.
  - (* FileDropped *)
    apply AppStep_eqb_eq in Hoff. rewrite handleDrop_handleFileSelect.
    destruct (handleFileSelect_cases files (ui c))
      as [-> | [(message & Hm & ->) | (file & others & _ & Hacc & ->)]];
      intros [= <-]; constructor; cbn; rewrite ?app_nil_r; auto;
      try (rewrite Hoff; discriminate).
    + intros f [= <-]. exact Hacc.
    + apply Forall_app. split; [exact Henc|]. now constructor.
  - (* EncodingResolved *)
    destruct (nth_error (encoding c) i); [|discriminate].
    intros [= <-]; constructor; cbn; auto using Forall_remove_nth.
    discriminate.
  - (* EncodingRejected *)
    destruct (nth_error (encoding c) i); [|discriminate].
    intros [= <-]; constructor; cbn; auto using Forall_remove_nth.
    intros _. eexists. split; [reflexivity | discriminate].
  - (* TranscriptEdited *)
    apply AppStep_eqb_eq in Hoff.
    intros [= <-]; constructor; cbn; auto.
  - (* GenerateClicked *)
    apply andb_prop in Hoff as [Hoff _]. apply AppStep_eqb_eq in Hoff.
    destruct (handleGenerate_cases (ui c))
      as [(Hcall & -> & _) | (_ & -> & _)];
      intros [= <-]; constructor; cbn; rewrite ?app_nil_r; auto;
      try discriminate; try (rewrite Hoff; discriminate).
    apply Forall_app. split; [exact Hal|]. constructor; [|constructor].
    split; [exact Hcall | exact Hfile].
  - (* CallEnded *)
    destruct (nth_error (aligning c) i) as [state|]; [|discriminate].
    destruct (snd (call API_KEY generateContent state)) as [srt|message] eqn:Hcall;
      intros [= <-]; constructor; cbn; auto using Forall_remove_nth.
    + discriminate.
    + exact (call_resolved_trimmed _ _ _ _ Hcall).
    + intros _. eexists. split; [reflexivity | apply errorMessage_nonempty].
  - (* ResetClicked *)
    intros [= <-]; constructor; cbn; auto; discriminate.
  - (* DownloadClicked *)
    intros [= <-]; constructor; cbn [ui encoding aligning saved]; auto.
    apply Forall_app. split; [exact Hsaved|].
    constructor; [|constructor].
    split; [exact Hsrt | apply endsWith_app].
  - (* RetryClicked *)
    intros [= <-]; constructor; cbn; auto. discriminate.
Qed.

Lemma sound_run (events : list Event) (c c' : Config) :
  sound c -> run c events = Some c' -> sound c'.
Proof.
  revert c. induction events as [|e events IH]; intros c Hc; cbn [run].
  - now intros [= <-].
  - destruct (fire c e) as [c1|] eqn:Hfire; [|discriminate].
    apply IH. exact (sound_fire c c1 e Hc Hfire).
Qed.

(** X14.  In every configuration the application reaches, the video handle
    and every file being encoded have passed the checks of the upload
    step: at most 200 MB and a type beginning with "video/". *)
Theorem held_files_passed_the_checks :
  forall events c,
    run start events = Some c ->
    (forall file,
        videoFile (ui c) = Some file \/ In file (encoding c) ->
        (size file <= 200 * 1024 * 1024)%Z
        /\ startsWith (lit "video/") (type file) = true).
Proof.
  intros events c Hrun file Hheld.
  destruct (sound_run events start c sound_start Hrun) as [Hfile Henc _ _ _ _].
  destruct Hheld as [Hui | Hin].
  - exact (Hfile file Hui).
  - rewrite Forall_forall in Henc. exact (Henc file Hin).
Qed.

Lemma held_files_passed_the_checks_witness :
  (size clip <= 200 * 1024 * 1024)%Z
  /\ startsWith (lit "video/") (type clip) = true.
Proof.
  apply (held_files_passed_the_checks
           [FileSelected [clip]]
           {| ui := set_videoFile clip initialState;
              encoding := [clip]; aligning := []; saved := [] |}).
  - reflexivity.
  - left. reflexivity.
Defined.

(** X15.  Every request a pending call of a reached configuration sends,
    whatever the credential and the service, carries a type beginning with
    "video/", the encoded video of the state the call was made from, which
    is not empty, and the prompt of its transcript, which is not blank. *)
Theorem requests_of_pending_calls :
  forall events c state API_KEY generateContent request,
    run start events = Some c ->
    In state (aligning c) ->
    In request (fst (call API_KEY generateContent state)) ->
    startsWith (lit "video/") (inline_mimeType request) = true
    /\ inline_data request <> []
    /\ videoBase64 state = Some (inline_data request)
    /\ text request = prompt (transcript state)
    /\ trim (transcript state) <> [].
Proof.
  intros events c state API_KEY generateContent request Hrun Hstate Hreq.
  destruct (sound_run events start c sound_start Hrun) as [_ _ Hal _ _ _].
  rewrite Forall_forall in Hal. destruct (Hal state Hstate) as [Hcall Hacc].
  destruct (handleGenerate_cases state)
    as [(_ & _ & Hb & (file & Hfile) & Ht) | (Hno & _)]; [|contradiction].
  destruct (Hacc file Hfile) as [_ Htype].
  apply truthy_cons in Hb as (ch & s & Hb).
  unfold call, generateSrtFromVideo in Hreq.
  rewrite Hfile, Hb in Hreq.
  destruct (negb (truthy API_KEY)); cbn [fst] in Hreq; [destruct Hreq|].
  destruct Hreq as [<- | []]. cbn [inline_mimeType inline_data text or_else].
  repeat split; try assumption. discriminate.
Qed.

Lemma requests_of_pending_calls_witness :
  startsWith (lit "video/") (lit "video/mp4") = true
  /\ lit "AAAA" <> []
  /\ Some (lit "AAAA") = Some (lit "AAAA")
  /\ prompt (lit "Hello world") = prompt (lit "Hello world")
  /\ trim (lit "Hello world") <> [].
Proof.
  apply (requests_of_pending_calls
           [FileSelected [feature];
            EncodingResolved 0 (lit "data:video/mp4;base64,AAAA");
            TranscriptEdited (lit "Hello world"); GenerateClicked]
           {| ui := set_processing ready; encoding := [];
              aligning := [ready]; saved := [] |}
           ready (Some (lit "key")) refusing
           {| model := lit "gemini-2.5-flash";
              inline_mimeType := lit "video/mp4";
              inline_data := lit "AAAA";
              text := prompt (lit "Hello world") |}).
  - reflexivity.
  - left. reflexivity.
  - left. reflexivity.
Defined.

(** X16.  Whenever the application is on the error step, a message that is
    not empty is held for [renderErrorStep] to show. *)
Theorem error_step_has_message :
  forall events c,
    run start events = Some c ->
    step (ui c) = ERROR ->
    exists message, error (ui c) = Some message /\ message <> [].
Proof.
  intros events c Hrun.
  exact (sound_error c (sound_run events start c sound_start Hrun)).
Qed.

Lemma error_step_has_message_witness :
  exists message,
    error (set_failed (errorMessage ready (lit "400 Bad Request"))
                      (set_processing ready))
    = Some message /\ message <> [].
Proof.
  apply (error_step_has_message
           [FileSelected [feature];
            EncodingResolved 0 (lit "data:video/mp4;base64,AAAA");
            TranscriptEdited (lit "Hello world"); GenerateClicked;
            CallEnded 0 (Some (lit "key")) refusing]
           {| ui := set_failed (errorMessage ready (lit "400 Bad Request"))
                               (set_processing ready);
              encoding := []; aligning := []; saved := [] |});
    reflexivity.
Defined.

(** X17.  In every configuration reached, the result held has no white space
    at either end, and every file saved has such a text and a name ending
    with ".srt". *)
Theorem result_and_saved_files_clean :
  forall events c,
    run start events = Some c ->
    trim (generatedSrt (ui c)) = generatedSrt (ui c)
    /\ Forall (fun d => trim (blob_content d) = blob_content d
                        /\ endsWith (lit ".srt") (download d) = true)
              (saved c).
Proof.
  intros events c Hrun.
  destruct (sound_run events start c sound_start Hrun) as [_ _ _ _ Hsrt Hsaved].
  now split.
Qed.

Lemma result_and_saved_files_clean_witness :
  exists c,
    run start session = Some c
    /\ trim (generatedSrt (ui c)) = generatedSrt (ui c)
    /\ Forall (fun d => trim (blob_content d) = blob_content d
                        /\ endsWith (lit ".srt") (download d) = true)
              (saved c).
Proof.
  eexists. split; [vm_compute; reflexivity|].
  apply (result_and_saved_files_clean session). vm_compute. reflexivity.
Defined.

Lemma serial_run (events : list Event) (c c' : Config) :
  serial c -> apart c events = true -> run c events = Some c' -> serial c'.
Proof.
  revert c. induction events as [|e events IH]; intros c Hser Hap Hrun.
  - now injection Hrun as <-.
  - cbn [apart run] in Hap, Hrun.
    apply andb_prop in Hap as [Hover Hap].
    apply negb_true_iff in Hover.
    destruct (fire c e) as [c1|] eqn:Hfire; [|discriminate].
    exact (IH c1 (serial_fire c c1 e Hser Hover Hfire) Hap Hrun).
Qed.

(** X21.  As long as no file is offered while an encoding is pending, Remove
    and New Project find nothing pending and bring the application back to
    its initial configuration, the files saved apart. *)
Theorem reset_returns_to_start :
  forall events c c',
    apart start events = true ->
    run start events = Some c ->
    fire c ResetClicked = Some c' ->
    c' = {| ui := initialState; encoding := []; aligning := [];
            saved := saved c |}.
Proof.
  intros events c c' Hap Hrun Hfire.
  pose proof (serial_run events start c I Hap Hrun) as Hser.
  unfold fire in Hfire.
  destruct (offered (ui c) ResetClicked) eqn:Hoff; [|discriminate].
  cbn [negb] in Hfire. injection Hfire as <-.
  cbn [offered] in Hoff. unfold serial in Hser. unfold handleReset.
  destruct (aligning c) as [|a [|]].
  - destruct (encoding c) as [|f [|]]; [reflexivity | | contradiction].
    rewrite Hser in Hoff. discriminate.
  - destruct Hser as [Hp _]. rewrite Hp in Hoff. discriminate.
  - contradiction.
Qed.

Lemma reset_returns_to_start_witness :
  exists c,
    run start session = Some c
    /\ fire c ResetClicked
       = Some {| ui := initialState; encoding := []; aligning := [];
                 saved := saved c |}.
Proof.
  eexists. split; [vm_compute; reflexivity|].
  match goal with
  | |- fire ?c _ = _ =>
      assert (H : exists c', fire c ResetClicked = Some c')
        by (eexists; vm_compute; reflexivity)
  end.
  destruct H as [c' H]. rewrite H. f_equal.
  apply (reset_returns_to_start session _ c'); [| | exact H];
    vm_compute; reflexivity.
Defined.

Lemma sized_fire (c c' : Config) (e : Event) :
  files_sized e ->
  (forall file, videoFile (ui c) = Some file -> (0 <= size file)%Z) ->
  fire c e = Some c' ->
  forall file, videoFile (ui c') = Some file -> (0 <= size file)%Z.
Proof.
  intros He Hc. unfold fire.
  destruct (offered (ui c) e); cbn [negb]; [|discriminate].
  destruct e; cbn [files_sized] in He.
  - destruct (handleFileSelect_cases files (ui c))
      as [-> | [(message & _ & ->) | (file & others & -> & _ & ->)]];
      intros [= <-]; cbn; auto.
    intros f [= <-]. now inversion He.
  - rewrite handleDrop_handleFileSelect.
    destruct (handleFileSelect_cases files (ui c))
      as [-> | [(message & _ & ->) | (file & others & -> & _ & ->)]];
      intros [= <-]; cbn; auto.
    intros f [= <-]. now inversion He.
  - destruct (nth_error (encoding c) i); [|discriminate].
    intros [= <-]; cbn; auto.
  - destruct (nth_error (encoding c) i); [|discriminate].
    intros [= <-]; cbn; auto.
  - intros [= <-]; cbn; auto.
  - destruct (handleGenerate_cases (ui c)) as [(_ & -> & _) | (_ & -> & _)];
      intros [= <-]; cbn; auto.
  - destruct (nth_error (aligning c) i) as [state|]; [|discriminate].
    destruct (snd (call API_KEY generateContent state));
      intros [= <-]; cbn; auto.
  - intros [= <-]; cbn. discriminate.
  - intros [= <-]; cbn; auto.
  - intros [= <-]; cbn; auto.
Qed.

Lemma sized_run (events : list Event) (c c' : Config) :
  Forall files_sized events ->
  (forall file, videoFile (ui c) = Some file -> (0 <= size file)%Z) ->
  run c events = Some c' ->
  forall file, videoFile (ui c') = Some file -> (0 <= size file)%Z.
Proof.
  intros Hev. revert c. induction Hev as [|e events He Hev IH];
    intros c Hc; cbn [run].
  - now intros [= <-].
  - destruct (fire c e) as [c1|] eqn:Hfire; [|discriminate].
    apply IH. exact (sized_fire c c1 e He Hc Hfire).
Qed.

(** X18.  Whatever files are offered, of a size that is not negative, the
    size [renderTranscriptStep] shows for the file held ends with a unit
    of the table: a file that would need a fifth unit does not pass the
    upload checks. *)
Theorem fileSizeLabel_has_unit :
  forall events c,
    Forall files_sized events ->
    run start events = Some c ->
    exists u, In u sizes /\ endsWith u (fileSizeLabel (ui c)) = true.
Proof.
  intros events c Hev Hrun. unfold fileSizeLabel.
  destruct (sound_run events start c sound_start Hrun) as [Hfile _ _ _ _ _].
  assert (Hpos : forall file, videoFile (ui c) = Some file -> (0 <= size file)%Z)
    by (apply (sized_run events start c Hev); [discriminate | exact Hrun]).
  destruct (videoFile (ui c)) as [file|].
  - destruct (Hfile file eq_refl) as [Hmax _].
    specialize (Hpos file eq_refl).
    unfold MAX_FILE_SIZE_BYTES, MAX_FILE_SIZE_MB in Hmax.
    destruct (Z.eq_dec (size file) 0) as [-> | Hne].
    + exists (lit "Bytes"). split; [now left | reflexivity].
    + apply formatFileSize_ends_with_unit. split; [lia|].
      apply Z.le_lt_trans with (200 * 1024 * 1024)%Z; [exact Hmax | reflexivity].
  - exists (lit "Bytes"). split; [now left | reflexivity].
Qed.

Lemma fileSizeLabel_has_unit_witness :
  exists c,
    run start session = Some c
    /\ exists u, In u sizes /\ endsWith u (fileSizeLabel (ui c)) = true.
Proof.
  eexists. split; [vm_compute; reflexivity|].
  apply (fileSizeLabel_has_unit session).
  - repeat constructor; discriminate.
  - vm_compute. reflexivity.
Defined.

Lemma fire_upload (c : Config) (file : File) (others : list File) (e : Event) :
  step (ui c) = UPLOAD ->
  (size file <= 200 * 1024 * 1024)%Z ->
  startsWith (lit "video/") (type file) = true ->
  e = FileSelected (file :: others) \/ e = FileDropped (file :: others) ->
  fire c e = Some {| ui := set_videoFile file (ui c);
                     encoding := encoding c ++ [file];
                     aligning := aligning c;
                     saved := saved c |}.
Proof.
  intros Hstep Hsize Htype He.
  pose proof (handleFileSelect_accepts file others (ui c) Hsize Htype) as Hacc.
  destruct He as [-> | ->]; unfold fire, offered; rewrite Hstep;
    cbn [AppStep_eqb negb]; now rewrite ?handleDrop_handleFileSelect, Hacc.
Qed.

(** X9.  When a file passes the checks of the upload step and its encoding
    succeeds, the application is on the transcript step with the file and
    no error; the encoded video is what [fileToBase64] gives of the result
    of the reader, [result.split(',')[1]]: the text between its first comma
    and the next, undefined when it has no comma.  The transcript and the
    result are as before. *)
Theorem accepted_upload_reaches_transcript :
  forall c file others e result,
    step (ui c) = UPLOAD ->
    (size file <= 200 * 1024 * 1024)%Z ->
    startsWith (lit "video/") (type file) = true ->
    e = FileSelected (file :: others) \/ e = FileDropped (file :: others) ->
    run c [e; EncodingResolved (List.length (encoding c)) result]
    = Some {| ui := {| step := TRANSCRIPT;
                       videoFile := Some file;
                       videoBase64 := fileToBase64 result;
                       transcript := transcript (ui c);
                       generatedSrt := generatedSrt (ui c);
                       error := None |};
              encoding := encoding c;
              aligning := aligning c;
              saved := saved c |}.
Proof.
  intros c file others e result Hstep Hsize Htype He.
  cbn [run]. rewrite (fire_upload c file others e Hstep Hsize Htype He).
  unfold fire. cbn [offered negb ui encoding aligning saved].
  now rewrite nth_error_snoc, remove_nth_snoc.
Qed.

Lemma accepted_upload_reaches_transcript_witness :
  run start [FileDropped [clip];
             EncodingResolved 0 (lit "data:video/mp4;base64,AAAA")]
  = Some {| ui := {| step := TRANSCRIPT;
                     videoFile := Some clip;
                     videoBase64 := Some (lit "AAAA");
                     transcript := [];
                     generatedSrt := [];
                     error := None |};
            encoding := [];
            aligning := [];
            saved := [] |}.
Proof.
  apply (accepted_upload_reaches_transcript start clip []).
  - reflexivity.
  - discriminate.
  - reflexivity.
  - right. reflexivity.
Defined.

Lemma fire_generate (s : ProcessingState) (pending : list File)
      (calls : list ProcessingState) (files : list Download) :
  step s = TRANSCRIPT -> callable s ->
  fire {| ui := s; encoding := pending; aligning := calls; saved := files |}
       GenerateClicked
  = Some {| ui := set_processing s; encoding := pending;
            aligning := calls ++ [s]; saved := files |}.
Proof.
  intros Hstep Hcall.
  destruct (handleGenerate_cases s)
    as [(_ & Heq & _ & _ & Ht) | (Hno & _)]; [|contradiction].
  unfold fire. cbn [ui offered encoding aligning saved]. rewrite Hstep, Heq.
  destruct (trim (transcript s)); [congruence | reflexivity].
Qed.

(** X11.  From a state of the transcript step for which the call is made,
    with a credential and a service that answers with a text that is not
    empty, Generate and the end of the call lead to the result step: the
    result is the answer cleaned, there is no error and the file, the
    encoded video and the transcript are as before. *)
Theorem answered_call_reaches_result :
  forall s pending files API_KEY generateContent answer,
    step s = TRANSCRIPT ->
    callable s ->
    truthy API_KEY = true ->
    answer <> [] ->
    (forall request, generateContent request = Responded (Some answer)) ->
    run {| ui := s; encoding := pending; aligning := []; saved := files |}
        [GenerateClicked; CallEnded 0 API_KEY generateContent]
    = Some {| ui := {| step := RESULT;
                       videoFile := videoFile s;
                       videoBase64 := videoBase64 s;
                       transcript := transcript s;
                       generatedSrt := cleanedText answer;
                       error := None |};
              encoding := pending;
              aligning := [];
              saved := files |}.
Proof.
  intros s pending files API_KEY generateContent answer
         Hstep Hcall Hkey Hne Hanswer.
  cbn [run]. rewrite (fire_generate s pending [] files Hstep Hcall).
  unfold fire. cbn [offered negb ui encoding aligning saved app nth_error].
  unfold call, generateSrtFromVideo. rewrite Hkey, Hanswer. cbn [negb snd].
  destruct answer as [|ch answer]; [congruence | reflexivity].
Qed.

Lemma answered_call_reaches_result_witness :
  run {| ui := ready; encoding := []; aligning := []; saved := [] |}
      [GenerateClicked; CallEnded 0 (Some (lit "key")) answering]
  = Some {| ui := {| step := RESULT;
                     videoFile := Some feature;
                     videoBase64 := Some (lit "AAAA");
                     transcript := lit "Hello world";
                     generatedSrt := subtitle;
                     error := None |};
            encoding := [];
            aligning := [];
            saved := [] |}.
Proof.
  apply (answered_call_reaches_result ready [] [] (Some (lit "key")) answering
           (lit "```srt" ++ nl ++ subtitle ++ nl ++ lit "```"));
    first [ reflexivity | discriminate ].
Defined.

(** X12.  Without a credential, Generate leads to the error step with the
    missing-key message, to which no size hint is added whatever the size
    of the file; no request is sent. *)
Theorem missing_key_reaches_error :
  forall s pending files API_KEY generateContent,
    step s = TRANSCRIPT ->
    callable s ->
    truthy API_KEY = false ->
    fst (call API_KEY generateContent s) = []
    /\ run {| ui := s; encoding := pending; aligning := []; saved := files |}
           [GenerateClicked; CallEnded 0 API_KEY generateContent]
       = Some {| ui := {| step := ERROR;
                          videoFile := videoFile s;
                          videoBase64 := videoBase64 s;
                          transcript := transcript s;
                          generatedSrt := generatedSrt s;
                          error := Some (lit "API Key is missing. Please ensure process.env.API_KEY is available.") |};
                 encoding := pending;
                 aligning := [];
                 saved := files |}.
Proof.
  intros s pending files API_KEY generateContent Hstep Hcall Hkey.
  assert (Hres : call API_KEY generateContent s
                 = ([], Thrown (lit "API Key is missing. Please ensure process.env.API_KEY is available.")))
    by (unfold call, generateSrtFromVideo; now rewrite Hkey).
  split; [now rewrite Hres|].
  cbn [run]. rewrite (fire_generate s pending [] files Hstep Hcall).
  unfold fire. cbn [offered negb ui encoding aligning saved app nth_error].
  rewrite Hres. cbn [snd generated remove_nth].
  unfold set_failed, set_processing. cbn [step videoFile videoBase64 transcript
                                          generatedSrt error].
  do 3 f_equal. unfold errorMessage.
  destruct (videoFile s) as [file|]; [|reflexivity].
  destruct (size file >? 20 * 1024 * 1024)%Z; reflexivity.
Qed.

Lemma missing_key_reaches_error_witness :
  fst (call None answering ready) = []
  /\ run {| ui := ready; encoding := []; aligning := []; saved := [] |}
         [GenerateClicked; CallEnded 0 None answering]
     = Some {| ui := {| step := ERROR;
                        videoFile := Some feature;
                        videoBase64 := Some (lit "AAAA");
                        transcript := lit "Hello world";
                        generatedSrt := [];
                        error := Some (lit "API Key is missing. Please ensure process.env.API_KEY is available.") |};
               encoding := [];
               aligning := [];
               saved := [] |}.
Proof.
  apply (missing_key_reaches_error ready [] [] None answering); reflexivity.
Defined.

(** X10.  When the encoding ends with no payload, the reader's result having
    no comma or nothing after its first comma, the application goes to the
    transcript step all the same, and there Generate makes no call
    whatever the transcript: it sets the message asking for both
    inputs. *)
Theorem empty_encoding_blocks_generate :
  forall c i file result value,
    nth_error (encoding c) i = Some file ->
    truthy (fileToBase64 result) = false ->
    trim value <> [] ->
    exists c',
      run c [EncodingResolved i result; TranscriptEdited value; GenerateClicked]
      = Some c'
      /\ step (ui c') = TRANSCRIPT
      /\ aligning c' = aligning c
      /\ error (ui c')
         = Some (lit "Please provide both a video and a transcript.").
Proof.
  intros c i file result value Hnth Hempty Hvalue.
  cbn [run]. unfold fire at 1. cbn [offered negb]. rewrite Hnth.
  unfold fire at 1. cbn [offered ui encoded set_videoBase64 step negb
                                AppStep_eqb].
  unfold fire at 1.
  cbn [offered ui set_transcript step transcript AppStep_eqb andb encoding
       aligning saved].
  destruct (trim value) as [|ch t] eqn:Ht; [congruence|]. cbn [negb].
  unfold handleGenerate.
  cbn [videoBase64 set_transcript encoded set_videoBase64].
  rewrite Hempty. cbn [negb orb opt_list].
  eexists. split; [reflexivity|].
  cbn [ui step error set_error aligning]. rewrite app_nil_r. auto.
Qed.

Lemma empty_encoding_blocks_generate_witness :
  exists c',
    run {| ui := set_videoFile clip initialState; encoding := [clip];
           aligning := []; saved := [] |}
        [EncodingResolved 0 (lit "data:video/mp4;base64,");
         TranscriptEdited (lit "Hello world"); GenerateClicked]
    = Some c'
    /\ step (ui c') = TRANSCRIPT
    /\ aligning c' = []
    /\ error (ui c')
       = Some (lit "Please provide both a video and a transcript.").
Proof.
  apply (empty_encoding_blocks_generate
           {| ui := set_videoFile clip initialState; encoding := [clip];
              aligning := []; saved := [] |}
           0 clip (lit "data:video/mp4;base64,") (lit "Hello world"));
    first [ reflexivity | discriminate ].
Defined.

(** X13.  After a failed call and Try Again, Generate makes the call again,
    and with the same encoded video, type and transcript as the first
    time, whatever the credential and the service then are. *)
Theorem failed_call_can_be_retried :
  forall s pending files API_KEY generateContent message,
    step s = TRANSCRIPT ->
    callable s ->
    snd (call API_KEY generateContent s) = Thrown message ->
    exists c' state,
      run {| ui := s; encoding := pending; aligning := []; saved := files |}
          [GenerateClicked; CallEnded 0 API_KEY generateContent;
           RetryClicked; GenerateClicked]
      = Some c'
      /\ step (ui c') = PROCESSING
      /\ aligning c' = [state]
      /\ forall API_KEY' generateContent',
          call API_KEY' generateContent' state
          = call API_KEY' generateContent' s.
Proof.
  intros s pending files API_KEY generateContent message Hstep Hcall Hthrown.
  assert (Hagain : callable (set_retry (set_failed (errorMessage s message)
                                                  (set_processing s)))).
  { destruct (handleGenerate_cases s)
      as [(_ & _ & Hb & (file & Hfile) & Ht) | (Hno & _)]; [|contradiction].
    unfold callable, handleGenerate.
    cbn [set_retry set_failed set_processing videoBase64 videoFile transcript].
    rewrite Hb, Hfile. cbn [negb orb].
    destruct (trim (transcript s)); [congruence | reflexivity]. }
  cbn [run]. rewrite (fire_generate s pending [] files Hstep Hcall).
  unfold fire at 1. cbn [offered negb ui encoding aligning saved app nth_error].
  rewrite Hthrown. cbn [generated remove_nth].
  unfold fire at 1. cbn [offered negb ui encoding aligning saved step
                                set_failed AppStep_eqb].
  rewrite (fire_generate
             (set_retry (set_failed (errorMessage s message) (set_processing s)))
             pending [] files eq_refl Hagain).
  do 2 eexists. split; [reflexivity|]. repeat split.
Qed.

Lemma failed_call_can_be_retried_witness :
  exists c' state,
    run {| ui := ready; encoding := []; aligning := []; saved := [] |}
        [GenerateClicked; CallEnded 0 (Some (lit "key")) refusing;
         RetryClicked; GenerateClicked]
    = Some c'
    /\ step (ui c') = PROCESSING
    /\ aligning c' = [state]
    /\ forall API_KEY' generateContent',
        call API_KEY' generateContent' state
        = call API_KEY' generateContent' ready.
Proof.
  apply (failed_call_can_be_retried ready [] [] (Some (lit "key")) refusing
           (lit "400 Bad Request"));
    reflexivity.
Defined.

Lemma waiting_fire (c c' : Config) (e : Event) :
  (step (ui c) = PROCESSING -> aligning c <> []) ->
  fire c e = Some c' ->
  step (ui c') = PROCESSING -> aligning c' <> [].
Proof.
  intros Hc. unfold fire.
  destruct (offered (ui c) e) eqn:Hoff; cbn [negb]; [|discriminate].
  destruct e; cbn [offered] in Hoff.
  - apply AppStep_eqb_eq in Hoff.
    destruct (handleFileSelect_cases files (ui c))
      as [-> | [(message & _ & ->) | (file & others & _ & _ & ->)]];
      intros [= <-]; cbn; rewrite Hoff; discriminate.
  - apply AppStep_eqb_eq in Hoff. rewrite handleDrop_handleFileSelect.
    destruct (handleFileSelect_cases files (ui c))
      as [-> | [(message & _ & ->) | (file & others & _ & _ & ->)]];
      intros [= <-]; cbn; rewrite Hoff; discriminate.
  - destruct (nth_error (encoding c) i); [|discriminate].
    intros [= <-]; cbn. discriminate.
  - destruct (nth_error (encoding c) i); [|discriminate].
    intros [= <-]; cbn. exact Hc.
  - apply AppStep_eqb_eq in Hoff.
    intros [= <-]; cbn. rewrite Hoff. discriminate.
  - destruct (handleGenerate_cases (ui c)) as [(_ & -> & _) | (_ & -> & _)];
      intros [= <-]; cbn; [|rewrite app_nil_r; exact Hc].
    intros _. destruct (aligning c); discriminate.
  - destruct (nth_error (aligning c) i) as [state|]; [|discriminate].
    destruct (snd (call API_KEY generateContent state));
      intros [= <-]; cbn; discriminate.
  - intros [= <-]; cbn. discriminate.
  - intros [= <-]; cbn. exact Hc.
  - intros [= <-]; cbn. discriminate.
Qed.

Lemma waiting_run (events : list Event) (c c' : Config) :
  (step (ui c) = PROCESSING -> aligning c <> []) ->
  run c events = Some c' ->
  step (ui c') = PROCESSING -> aligning c' <> [].
Proof.
  revert c. induction events as [|e events IH]; intros c Hc; cbn [run].
  - now intros [= <-].
  - destruct (fire c e) as [c1|] eqn:Hfire; [|discriminate].
    apply IH. exact (waiting_fire c c1 e Hc Hfire).
Qed.

(** X19.  The application is never on the processing step with no call
    pending: there is then a call whose end, whatever its outcome, takes
    the application to the result step or to the error step. *)
Theorem processing_has_pending_call :
  forall events c,
    run start events = Some c ->
    step (ui c) = PROCESSING ->
    exists state,
      nth_error (aligning c) 0 = Some state
      /\ forall API_KEY generateContent,
          exists c',
            fire c (CallEnded 0 API_KEY generateContent) = Some c'
            /\ (step (ui c') = RESULT \/ step (ui c') = ERROR).
Proof.
  intros events c Hrun Hstep.
  assert (Hne : aligning c <> [])
    by (apply (waiting_run events start c); [discriminate | assumption..]).
  destruct (aligning c) as [|state calls] eqn:Hal; [congruence|].
  exists state. split; [reflexivity|].
  intros API_KEY generateContent. unfold fire.
  cbn [offered negb]. rewrite Hal. cbn [nth_error].
  eexists. split; [reflexivity|]. cbn [ui].
  destruct (snd (call API_KEY generateContent state)); cbn; auto.
Qed.

Lemma processing_has_pending_call_witness :
  exists state,
    nth_error [ready] 0 = Some state
    /\ forall API_KEY generateContent,
        exists c',
          fire {| ui := set_processing ready; encoding := [];
                  aligning := [ready]; saved := [] |}
               (CallEnded 0 API_KEY generateContent) = Some c'
          /\ (step (ui c') = RESULT \/ step (ui c') = ERROR).
Proof.
  apply (processing_has_pending_call
           [FileSelected [feature];
            EncodingResolved 0 (lit "data:video/mp4;base64,AAAA");
            TranscriptEdited (lit "Hello world"); GenerateClicked]
           {| ui := set_processing ready; encoding := [];
              aligning := [ready]; saved := [] |});
    reflexivity.
Defined.
